(** * Quantitative engine of the prediction-market terminal

    A shallow embedding of [quant_engine.py] (with the value types of
    [models.py] it works on): the order-book walk that prices a trade,
    the Beta belief shape, and the expected-value / Kelly computation.

    Python's [float] is abstracted behind the interface [PyFloat], so every
    function below is written once, in the shape of the source.  Two
    instances are given:
    - IEEE binary64 ([PrimFloat]), the arithmetic the program runs in, with
      its rounding, its infinities and NaN;
    - exact rationals [Q], the arithmetic the formulas of the program are
      meant in.  It has no rounding, no infinity and no NaN: a property
      proved on it alone says what the algorithm computes, not what a
      binary64 run returns.

    The two are tied by [value], the rational a binary64 number stands for.
    Comparisons of binary64 numbers decide as the order of their values,
    and a call in which no operation rounds ([exact_run]) takes the
    branches, and returns the value, of the call over the rationals.
    Properties of the control flow and of comparisons are proved for every
    binary64 input; properties of the computed values are proved over the
    rationals and carried to the binary64 calls that do not round, with
    the inputs on which rounding breaks them given next to them. *)

From Stdlib Require Import ZArith QArith Qminmax Qpower Lqa.
From Stdlib Require Import List Sorted Bool Lia.
From Stdlib Require Import PrimFloat SpecFloat FloatOps FloatAxioms.
Import ListNotations.

Set Implicit Arguments.

(** ** Exceptions and results *)

(** The exceptions the engine can raise.  [ZeroDivisionError] is what
    Python's [/] raises on a zero divisor. *)
Inductive exn : Type :=
| ValueError
| OrderbookDepthError
| ZeroDivisionError.

Definition result (A : Type) : Type := (exn + A)%type.

Definition raise {A : Type} (e : exn) : result A := inl e.
Definition ret {A : Type} (a : A) : result A := inr a.

Definition bind {A B : Type} (m : result A) (k : A -> result B) : result B :=
  match m with
  | inl e => inl e
  | inr a => k a
  end.

Declare Scope py_scope.
Delimit Scope py_scope with py.

Notation "x <- m ;; k" := (bind m (fun x => k))
  (at level 61, m at next level, right associativity) : py_scope.

(** ** Numbers *)

(** The operations of Python floats that the engine uses, and the four
    literals that occur in it. *)
Class PyFloat (F : Type) : Type := {
  lit_0 : F;          (* 0.0 *)
  lit_1 : F;          (* 1.0 *)
  lit_100 : F;        (* 100.0 *)
  lit_1e_6 : F;       (* 1e-6 *)
  add : F -> F -> F;
  sub : F -> F -> F;
  mul : F -> F -> F;
  raw_div : F -> F -> F;
  leb : F -> F -> bool;
  ltb : F -> F -> bool;
  eqb : F -> F -> bool;
  is_nan : F -> bool
}.

Infix "+" := add : py_scope.
Infix "-" := sub : py_scope.
Infix "*" := mul : py_scope.
Infix "<=?" := leb : py_scope.
Infix "<?" := ltb : py_scope.

Definition Qlt_bool (x y : Q) : bool := negb (Qle_bool y x).

(** Exact arithmetic: no operation rounds and no number is NaN. *)
#[global] Instance Q_PyFloat : PyFloat Q := {|
  lit_0 := 0%Q;
  lit_1 := 1%Q;
  lit_100 := 100%Q;
  lit_1e_6 := (1 # 1000000)%Q;
  add := Qplus;
  sub := Qminus;
  mul := Qmult;
  raw_div := Qdiv;
  leb := Qle_bool;
  ltb := Qlt_bool;
  eqb := Qeq_bool;
  is_nan := fun _ => false
|}.

(** Python's [float]: IEEE binary64, rounding to nearest even.  A number is
    NaN exactly when it does not compare equal to itself. *)
#[global] Instance binary64_PyFloat : PyFloat float := {|
  lit_0 := 0%float;
  lit_1 := 1%float;
  lit_100 := 100%float;
  lit_1e_6 := 0x1.0c6f7a0b5ed8dp-20%float;
  add := PrimFloat.add;
  sub := PrimFloat.sub;
  mul := PrimFloat.mul;
  raw_div := PrimFloat.div;
  leb := PrimFloat.leb;
  ltb := PrimFloat.ltb;
  eqb := PrimFloat.eqb;
  is_nan := fun x => negb (PrimFloat.eqb x x)
|}.

Section Engine.

Context {F : Type} {num : PyFloat F}.

Local Open Scope py_scope.

(** [a / b]: raises [ZeroDivisionError] when [b] compares equal to zero. *)
Definition div (a b : F) : result F :=
  if eqb b lit_0 then raise ZeroDivisionError else ret (raw_div a b).

Infix "/" := div : py_scope.

(** The builtin [max(a, b)]: the first argument unless the second is
    greater. *)
Definition max (a b : F) : F := if a <? b then b else a.

(** [np.clip(x, a_min, a_max)], numpy's [minimum(maximum(x, a_min), a_max)].
    Either step keeps its first operand when it is NaN and on a tie, so [x]
    comes back unless it lies strictly outside the bounds: a NaN stays NaN
    and a zero keeps its sign. *)
Definition np_maximum (a b : F) : F :=
  if is_nan a then a else if b <=? a then a else b.

Definition np_minimum (a b : F) : F :=
  if is_nan a then a else if a <=? b then a else b.

Definition np_clip (x a_min a_max : F) : F :=
  np_minimum (np_maximum x a_min) a_max.

(** ** Data model ([models.py]) *)

Record OrderbookLevel : Type := {
  price : F;
  size : F
}.

Record Orderbook : Type := {
  bids : list OrderbookLevel;
  asks : list OrderbookLevel
}.

Record TradeScenario : Type := {
  trade_size_usd : F;
  belief_probability : F;
  effective_entry_price : F;
  ev_percentage : F;
  kelly_fraction : F
}.

Inductive Side : Type := BUY | SELL.

(** ** Order-book walk *)

(** The three locals the loop of [calculate_effective_price] updates. *)
Record walk_state : Type := {
  remaining_notional : F;
  total_cost : F;
  total_shares : F
}.

(** The [for level in levels] loop.  The second branch is the one that ends
    in [break]: it does not look at [rest]. *)
Fixpoint walk (levels : list OrderbookLevel) (st : walk_state)
  : result walk_state :=
  match levels with
  | [] => ret st
  | level :: rest =>
      let level_notional := price level * size level in
      if level_notional <=? lit_0 then walk rest st
      else if remaining_notional st <=? level_notional then
        fill_shares <- remaining_notional st / price level ;;
        ret {| remaining_notional := lit_0;
               total_cost := total_cost st + remaining_notional st;
               total_shares := total_shares st + fill_shares |}
      else
        walk rest
          {| remaining_notional := remaining_notional st - level_notional;
             total_cost := total_cost st + level_notional;
             total_shares := total_shares st + size level |}
  end.

(** Position of the level at which the loop reaches [break], when it does:
    the same three-way test as [walk], keeping only the count. *)
Fixpoint completing_index (levels : list OrderbookLevel) (remaining : F)
  : option nat :=
  match levels with
  | [] => None
  | level :: rest =>
      let level_notional := price level * size level in
      if level_notional <=? lit_0 then
        option_map S (completing_index rest remaining)
      else if remaining <=? level_notional then Some 0%nat
      else option_map S (completing_index rest (remaining - level_notional))
  end.

Definition side_levels (orderbook : Orderbook) (side : Side)
  : list OrderbookLevel :=
  match side with
  | BUY => asks orderbook
  | SELL => bids orderbook
  end.

Definition initial_state (trade_size_usd : F) : walk_state :=
  {| remaining_notional := trade_size_usd;
     total_cost := lit_0;
     total_shares := lit_0 |}.

(** The two checks and the division that follow the loop. *)
Definition settle (st : walk_state) : result F :=
  if lit_0 <? remaining_notional st then raise OrderbookDepthError
  else if total_shares st <=? lit_0 then raise OrderbookDepthError
  else total_cost st / total_shares st.

Definition calculate_effective_price
  (orderbook : Orderbook) (side : Side) (trade_size_usd : F) : result F :=
  if trade_size_usd <=? lit_0 then raise ValueError
  else
    st <- walk (side_levels orderbook side) (initial_state trade_size_usd) ;;
    settle st.

(** ** Trade metrics *)

Definition compute_trade_metrics
  (entry_price target_probability trade_size : F) : result TradeScenario :=
  let price := np_clip entry_price lit_0 lit_1 in
  let probability := np_clip target_probability lit_0 lit_1 in
  let ev := probability * lit_1 - price in
  let denominator := max (lit_1 - price) lit_1e_6 in
  q <- ev / denominator ;;
  let kelly_fraction := max lit_0 q in
  ret {| trade_size_usd := trade_size;
         belief_probability := probability;
         effective_entry_price := price;
         ev_percentage := ev * lit_100;
         kelly_fraction := kelly_fraction |}.

End Engine.

Arguments OrderbookLevel F : clear implicits.
Arguments Orderbook F : clear implicits.
Arguments TradeScenario F : clear implicits.
Arguments walk_state F : clear implicits.

(** ** Beta belief model *)

Module BetaModel.
Section Model.

Context {F : Type} {num : PyFloat F}.
Local Open Scope py_scope.

Record t : Type := {
  belief_probability : F;
  confidence_strength : F
}.

Definition parameters (self : t) : F * F :=
  let belief := np_clip (belief_probability self) lit_0 lit_1 in
  let strength := np_clip (confidence_strength self) lit_1 lit_100 in
  let alpha := belief * strength + lit_1 in
  let beta := (lit_1 - belief) * strength + lit_1 in
  (alpha, beta).

(** [pdf(points = 200)].  [np.linspace] and [scipy.stats.beta.pdf] are
    library routines, taken as given. *)
Variable np_linspace : F -> F -> nat -> list F.
Variable beta_dist_pdf : list F -> F -> F -> list F.

Definition pdf (self : t) (points : nat) : list F * list F :=
  let (alpha, beta) := parameters self in
  let x := np_linspace lit_0 lit_1 points in
  let y := beta_dist_pdf x alpha beta in
  (x, y).

End Model.
Arguments t F : clear implicits.
End BetaModel.

(** ** The analysis panel ([app.py]) *)

Section App.

Context {F : Type} {num : PyFloat F}.
Local Open Scope py_scope.

(** [Orderbook()], both sides from [default_factory=list]: what
    [get_orderbook] returns when the request fails. *)
Definition empty_orderbook : Orderbook F := {| bids := []; asks := [] |}.

(** The body of the [try] block up to the scenario: the effective price of
    a BUY of the trade size, then the metrics at that price.  [trade_size]
    and [belief_probability] are the slider values after [float(...)]; any
    exception leaves the block for the [except] clause. *)
Definition trade_analysis (orderbook : Orderbook F)
           (trade_size belief_probability : F) : result (TradeScenario F) :=
  effective_price <- calculate_effective_price orderbook BUY trade_size ;;
  compute_trade_metrics effective_price belief_probability trade_size.



End App.

(** * Vocabulary of the properties *)

Local Open Scope Q_scope.

#[warnings="-notation-for-abbreviation"]
Notation QLevel := (OrderbookLevel Q).
#[warnings="-notation-for-abbreviation"]
Notation QBook := (Orderbook Q).
#[warnings="-notation-for-abbreviation"]
Notation QState := (walk_state Q).




(** Shares bought (or sold) when [remaining] is filled from [levels];
    [None] when the levels run out first. *)
Fixpoint shares_filled (levels : list QLevel) (remaining : Q) : option Q :=
  match levels with
  | [] => None
  | level :: rest =>
      if Qle_bool (price level * size level) 0 then shares_filled rest remaining
      else if Qle_bool remaining (price level * size level) then
        Some (remaining / price level)
      else
        option_map (Qplus (size level))
          (shares_filled rest (remaining - price level * size level))
  end.





(** [clamp x lo hi] as the specification words it. *)
Definition clamp (x lo hi : Q) : Q := Qmax lo (Qmin x hi).

(** No path through the walk, the closing checks or the whole call ends
    in [ZeroDivisionError]. *)
Definition never_divides_by_zero (F : Type) {num : PyFloat F} : Prop :=
  (forall (levels : list (OrderbookLevel F)) (st : walk_state F),
      walk levels st <> inl ZeroDivisionError) /\
  (forall st : walk_state F, settle st <> inl ZeroDivisionError) /\
  (forall (book : Orderbook F) (side : Side) (n : F),
      calculate_effective_price book side n <> inl ZeroDivisionError).

Arguments never_divides_by_zero F {num}.

(** The failure modes of one call, with the tests as the code evaluates
    them. *)
Definition failure_modes_at {F : Type} {num : PyFloat F}
           (book : Orderbook F) (side : Side) (n : F) : Prop :=
  (calculate_effective_price book side n = inl ValueError <->
   leb n lit_0 = true) /\
  (leb n lit_0 = true ->
   forall (book' : Orderbook F) (side' : Side),
     calculate_effective_price book' side' n = inl ValueError) /\
  (leb n lit_0 = false ->
   exists st,
     walk (side_levels book side) (initial_state n) = inr st /\
     (calculate_effective_price book side n = inl OrderbookDepthError <->
      ltb lit_0 (remaining_notional st) = true \/
      leb (total_shares st) lit_0 = true) /\
     (ltb lit_0 (remaining_notional st) = false ->
      leb (total_shares st) lit_0 = false ->
      calculate_effective_price book side n =
        inr (raw_div (total_cost st) (total_shares st)))) /\
  (forall e : exn,
      calculate_effective_price book side n = inl e ->
      e = ValueError \/ e = OrderbookDepthError).

(** ** The density curve *)

(** Modelled from the spec: [np.linspace] belongs to numpy, whose code is
    not in the repository.  This is the grid the spec describes, [num]
    evenly spaced values over the closed interval from [start] to [stop],
    laid out as numpy documents it: sample [i] is [start + i * step] with
    [step = (stop - start) / (num - 1)], and the last sample is [stop]
    itself. *)
Definition linspace (start stop : Q) (num : nat) : list Q :=
  match num with
  | O => []
  | S O => [start]
  | S (S _ as intervals) =>
      let step := (stop - start) / inject_Z (Z.of_nat intervals) in
      map (fun i => start + inject_Z (Z.of_nat i) * step) (seq 0 intervals)
      ++ [stop]
  end.

Section Density.

(** Real powers and the Beta function have no rational values in general:
    they are left open. *)
Variable power : Q -> Q -> Q.
Variable beta_function : Q -> Q -> Q.

(** Modelled from the spec: [beta_dist.pdf] belongs to scipy, whose code is
    not in the repository.  This is the density the spec gives,
    f(x) = x^(alpha-1) (1-x)^(beta-1) / B(alpha, beta). *)
Definition beta_density (x alpha beta : Q) : Q :=
  power x (alpha - 1) * power (1 - x) (beta - 1) / beta_function alpha beta.

(** Modelled from the spec: the density at every point of an array, as
    scipy's [pdf] evaluates an array argument. *)
Definition beta_dist_pdf (xs : list Q) (alpha beta : Q) : list Q :=
  map (fun x => beta_density x alpha beta) xs.

End Density.

(** [BetaModel.pdf] with the two library routines filled in. *)
Definition density_curve (power beta_function : Q -> Q -> Q)
           (self : BetaModel.t Q) (points : nat) : list Q * list Q :=
  BetaModel.pdf linspace (beta_dist_pdf power beta_function) self points.

(** ** Binary64 numbers as rationals *)

(** The rational a binary64 number stands for; none for the infinities and
    NaN. *)
Definition SF2Q (x : spec_float) : option Q :=
  match x with
  | S754_zero _ => Some 0
  | S754_finite s m e => Some (inject_Z (cond_Zopp s (Zpos m)) * 2 ^ e)
  | S754_infinity _ | S754_nan => None
  end.

Definition value (x : float) : option Q := SF2Q (Prim2SF x).



(** [x] is finite and stands for exactly [q]: a binary64 result of which
    this holds, [q] being the result over the rationals, was not rounded. *)
Definition exact (x : float) (q : Q) : bool :=
  match value x with
  | Some v => Qeq_bool v q
  | None => false
  end.








(** ** Rounding *)

(** The number m x 2^e, m positive, is at least 1. *)
Definition above_one (m e : Z) : Prop := (0 < m /\ 2 ^ (- e) <= m)%Z.

(** A binary64 number that is not below zero: a zero of either sign, a
    positive number or plus infinity. *)
Definition nonneg (x : spec_float) : Prop :=
  match x with
  | S754_zero _ | S754_finite false _ _ | S754_infinity false => True
  | _ => False
  end.

(** 1.0 in binary64. *)
Definition SFone64 : spec_float := S754_finite false 4503599627370496 (-52).

(** ** Sample books *)

Definition sample_asks : list QLevel :=
  [ {| price := 0.40; size := 50 |}; {| price := 0.50; size := 100 |} ].

Definition sample_book : QBook := {| bids := []; asks := sample_asks |}.

Set Warnings "-inexact-float".

Definition sample_book64 : Orderbook float :=
  {| bids := [];
     asks := [ {| price := 0.40%float; size := 50%float |};
               {| price := 0.50%float; size := 100%float |} ] |}.





(** A belief that is not a number. *)
Definition nan_belief : BetaModel.t float :=
  {| BetaModel.belief_probability := nan;
     BetaModel.confidence_strength := 25%float |}.

(** ** Transformations of a book *)

(** A level the loop does not skip. *)
Definition live {F : Type} {num : PyFloat F} (level : OrderbookLevel F)
  : bool :=
  negb (leb (mul (price level) (size level)) lit_0).

(** The book without the levels the loop skips. *)
Definition prune {F : Type} {num : PyFloat F} (book : Orderbook F)
  : Orderbook F :=
  {| bids := filter live (bids book); asks := filter live (asks book) |}.

(** * Properties of the control flow, for any arithmetic *)

(** ** Early stop: nothing after the completing level is read *)

(** These hold for every instance of [PyFloat], binary64 included: they
    follow the control flow of the loop only. *)
Section Early_stop.

Context {F : Type} {num : PyFloat F}.

Implicit Types (levels extra : list (OrderbookLevel F)) (st : walk_state F).

Lemma option_map_S_some (o : option nat) :
  option_map S o <> None -> o <> None.
Proof. destruct o; cbn; congruence. Qed.

Lemma walk_app_completed levels extra :
  forall st,
    completing_index levels (remaining_notional st) <> None ->
    walk (levels ++ extra) st = walk levels st.
Proof.
  induction levels as [|level rest IH]; intros st Hc.
  - now contradiction Hc.
  - cbn [app walk completing_index] in *.
    destruct (leb (mul (price level) (size level)) lit_0).
    + apply IH. now apply option_map_S_some.
    + destruct (leb (remaining_notional st)
                    (mul (price level) (size level))).
      * reflexivity.
      * apply IH. cbn. now apply option_map_S_some.
Qed.

Lemma completing_index_firstn levels :
  forall (rem : F) (k : nat),
    completing_index levels rem = Some k ->
    completing_index (firstn (S k) levels) rem = Some k /\
    (k < length levels)%nat.
Proof.
  induction levels as [|level rest IH]; intros rem k Hc.
  - discriminate.
  - cbn [completing_index] in Hc.
    change (firstn (S k) (level :: rest)) with (level :: firstn k rest).
    cbn [completing_index length].
    destruct (leb (mul (price level) (size level)) lit_0).
    + destruct (completing_index rest rem) as [j|] eqn:Ej; [|discriminate].
      injection Hc as <-. destruct (IH rem j Ej) as [-> Hlt].
      split; [reflexivity|lia].
    + destruct (leb rem (mul (price level) (size level))).
      * injection Hc as <-. split; [reflexivity|lia].
      * destruct (completing_index rest
                    (sub rem (mul (price level) (size level))))
          as [j|] eqn:Ej; [|discriminate].
        injection Hc as <-. destruct (IH _ j Ej) as [-> Hlt].
        split; [reflexivity|lia].
Qed.

Lemma walk_prefix levels st (k : nat) :
  completing_index levels (remaining_notional st) = Some k ->
  walk levels st = walk (firstn (S k) levels) st.
Proof.
  intros Hc. rewrite <- (firstn_skipn (S k) levels) at 1.
  apply walk_app_completed.
  destruct (completing_index_firstn levels _ Hc) as [-> _]. discriminate.
Qed.

(** Two books that agree, on the traversed side, up to and including the
    completing level are priced alike. *)
Lemma price_prefix_only (book book' : Orderbook F) (side : Side)
      (n : F) (k : nat) :
  completing_index (side_levels book side) n = Some k ->
  firstn (S k) (side_levels book' side) =
    firstn (S k) (side_levels book side) ->
  calculate_effective_price book' side n =
    calculate_effective_price book side n.
Proof.
  intros Hc Hpre. unfold calculate_effective_price.
  destruct (leb n lit_0); [reflexivity|].
  f_equal.
  rewrite (walk_prefix (side_levels book side) (initial_state n) Hc).
  rewrite <- Hpre.
  rewrite <- (firstn_skipn (S k) (side_levels book' side)) at 1.
  apply walk_app_completed.
  rewrite Hpre.
  destruct (completing_index_firstn (side_levels book side) _ Hc)
    as [Hk _].
  cbn [initial_state remaining_notional]. rewrite Hk. discriminate.
Qed.

End Early_stop.

(** ** Zero divisors *)

(** What the two divisions rely on: a number that compares equal to zero is
    [<= 0], and a product with such a factor is either [<= 0] or compares
    [<=] with nothing (in binary64: 0 x infinity is NaN). *)
Section Division_safety.

Context {F : Type} {num : PyFloat F}.

Hypothesis zero_le : forall t : F, eqb t lit_0 = true -> leb t lit_0 = true.

Hypothesis zero_times :
  forall p s r : F,
    eqb p lit_0 = true ->
    leb (mul p s) lit_0 = false ->
    leb r (mul p s) = false.

Lemma walk_runs (levels : list (OrderbookLevel F)) :
  forall st : walk_state F, exists st', walk levels st = inr st'.
Proof.
  induction levels as [|level rest IH]; intros st.
  - now exists st.
  - cbn [walk].
    destruct (leb (mul (price level) (size level)) lit_0) eqn:Eskip;
      [apply IH|].
    destruct (leb (remaining_notional st) (mul (price level) (size level)))
      eqn:Efill; [|apply IH].
    unfold div.
    destruct (eqb (price level) lit_0) eqn:Ez.
    + rewrite (zero_times _ _ (remaining_notional st) Ez Eskip) in Efill.
      discriminate.
    + cbn. eauto.
Qed.

Lemma settle_outcome (st : walk_state F) :
  settle st =
    if ltb lit_0 (remaining_notional st) || leb (total_shares st) lit_0
    then inl OrderbookDepthError
    else inr (raw_div (total_cost st) (total_shares st)).
Proof.
  unfold settle.
  destruct (ltb lit_0 (remaining_notional st)); [reflexivity|].
  destruct (leb (total_shares st) lit_0) eqn:Ele; [reflexivity|].
  unfold div.
  destruct (eqb (total_shares st) lit_0) eqn:Ez; [|reflexivity].
  rewrite (zero_le _ Ez) in Ele. discriminate.
Qed.

Lemma price_outcome (book : Orderbook F) (side : Side) (n : F) :
  (leb n lit_0 = true /\
   calculate_effective_price book side n = inl ValueError) \/
  (leb n lit_0 = false /\
   exists st,
     walk (side_levels book side) (initial_state n) = inr st /\
     calculate_effective_price book side n =
       if ltb lit_0 (remaining_notional st) || leb (total_shares st) lit_0
       then inl OrderbookDepthError
       else inr (raw_div (total_cost st) (total_shares st))).
Proof.
  unfold calculate_effective_price.
  destruct (leb n lit_0); [now left|right].
  split; [reflexivity|].
  destruct (walk_runs (side_levels book side) (initial_state n))
    as [st Hst].
  exists st. split; [assumption|].
  rewrite Hst. cbn [bind]. apply settle_outcome.
Qed.

Lemma division_safe : never_divides_by_zero F.
Proof.
  unfold never_divides_by_zero. split; [|split].
  - intros levels st. destruct (walk_runs levels st) as [st' ->].
    discriminate.
  - intros st. rewrite settle_outcome.
    destruct (_ || _); discriminate.
  - intros book side n.
    destruct (price_outcome book side n) as [[_ ->]|(_ & st & _ & ->)];
      [discriminate|].
    destruct (_ || _); discriminate.
Qed.

Lemma failure_modes_hold (book : Orderbook F) (side : Side) (n : F) :
  failure_modes_at book side n.
Proof.
  unfold failure_modes_at.
  destruct (price_outcome book side n) as [[Hn E]|(Hn & st & Hst & E)].
  - split; [|split; [|split]].
    + split; auto.
    + intros _ book' side'.
      destruct (price_outcome book' side' n) as [[_ E']|[Hn' _]];
        [exact E'|congruence].
    + congruence.
    + intros e. rewrite E. intros [= <-]. auto.
  - split; [|split; [|split]].
    + split; [|congruence]. rewrite E.
      destruct (_ || _); discriminate.
    + congruence.
    + intros _. exists st. split; [assumption|]. rewrite E.
      destruct (ltb lit_0 (remaining_notional st));
        destruct (leb (total_shares st) lit_0); cbn [orb];
        (split;
         [split;
          [ intros H;
            first [left; reflexivity|right; reflexivity|discriminate H]
          | intros [H|H]; first [reflexivity|discriminate H] ]
         | intros H1 H2; first [reflexivity|discriminate] ]).
    + intros e. rewrite E. destruct (_ || _); [|discriminate].
      intros [= <-]. auto.
Qed.

End Division_safety.

(** ** The two laws in binary64 *)

Lemma Prim2SF_zero : Prim2SF 0%float = S754_zero false.
Proof. vm_compute. reflexivity. Qed.

Lemma binary64_eqb_zero (t : float) :
  PrimFloat.eqb t 0%float = true -> exists s, Prim2SF t = S754_zero s.
Proof.
  rewrite eqb_spec, Prim2SF_zero.
  destruct (Prim2SF t) as [s|s| |s m e]; cbn; try discriminate; eauto;
    destruct s; discriminate.
Qed.

Lemma binary64_zero_le (t : float) :
  PrimFloat.eqb t 0%float = true -> PrimFloat.leb t 0%float = true.
Proof.
  intros H. destruct (binary64_eqb_zero H) as [s Hs].
  rewrite leb_spec, Prim2SF_zero, Hs. reflexivity.
Qed.

Lemma binary64_zero_times (p s r : float) :
  PrimFloat.eqb p 0%float = true ->
  PrimFloat.leb (PrimFloat.mul p s) 0%float = false ->
  PrimFloat.leb r (PrimFloat.mul p s) = false.
Proof.
  intros H. destruct (binary64_eqb_zero H) as [b Hb].
  rewrite !leb_spec, mul_spec, Prim2SF_zero, Hb.
  destruct (Prim2SF s) as [s'|s'| |s' m e]; cbn; try discriminate;
    intros _; unfold SFleb, SFcompare; destruct (Prim2SF r); reflexivity.
Qed.

(** ** The two laws over [Q] *)

Lemma Q_zero_le (t : Q) : Qeq_bool t 0 = true -> Qle_bool t 0 = true.
Proof.
  intros H. apply Qeq_bool_iff in H. apply Qle_bool_iff.
  rewrite H. apply Qle_refl.
Qed.

Lemma Q_zero_times (p s r : Q) :
  Qeq_bool p 0 = true ->
  Qle_bool (p * s) 0 = false ->
  Qle_bool r (p * s) = false.
Proof.
  intros H Hpos. apply Qeq_bool_iff in H.
  assert (Hle : Qle_bool (p * s) 0 = true).
  { apply Qle_bool_iff. rewrite H, Qmult_0_l. apply Qle_refl. }
  congruence.
Qed.


(** * Properties over exact arithmetic *)

(** ** Comparisons as propositions *)

Lemma Qle_bool_true (x y : Q) : Qle_bool x y = true -> x <= y.
Proof. apply Qle_bool_iff. Qed.

Lemma Qle_bool_false (x y : Q) : Qle_bool x y = false -> y < x.
Proof.
  intros E. apply Qnot_le_lt. intros H.
  apply Qle_bool_iff in H. congruence.
Qed.

Lemma Qlt_bool_true (x y : Q) : Qlt_bool x y = true -> x < y.
Proof.
  unfold Qlt_bool. intros E. apply negb_true_iff in E.
  now apply Qle_bool_false.
Qed.

Lemma Qlt_bool_false (x y : Q) : Qlt_bool x y = false -> y <= x.
Proof.
  unfold Qlt_bool. intros E. apply negb_false_iff in E.
  now apply Qle_bool_true.
Qed.

Lemma Qeq_bool_false (x y : Q) : Qeq_bool x y = false -> ~ x == y.
Proof. apply Qeq_bool_neq. Qed.

Lemma Qle_bool_intro (x y : Q) : x <= y -> Qle_bool x y = true.
Proof. apply Qle_bool_iff. Qed.

Lemma Qle_bool_intro_false (x y : Q) : y < x -> Qle_bool x y = false.
Proof.
  intros H. destruct (Qle_bool x y) eqn:E; [|reflexivity].
  apply Qle_bool_true in E. lra.
Qed.



Lemma Qeq_bool_intro_false (x y : Q) : ~ x == y -> Qeq_bool x y = false.
Proof.
  intros H. destruct (Qeq_bool x y) eqn:E; [|reflexivity].
  apply Qeq_bool_iff in E. contradiction.
Qed.

(** Reduce the interface operations to those of [Q]. *)
Ltac q_ops :=
  cbn [leb ltb eqb add sub mul raw_div lit_0 lit_1 lit_100 lit_1e_6 is_nan
       Q_PyFloat] in *.

(** Split on the next comparison the goal branches on, keeping it as a
    hypothesis in propositional form. *)
Ltac q_case :=
  match goal with
  | |- context [if ?c then _ else _] =>
      let E := fresh "E" in
      lazymatch c with
      | Qle_bool ?a ?b =>
          destruct (Qle_bool a b) eqn:E;
          [apply Qle_bool_true in E | apply Qle_bool_false in E]
      | Qlt_bool ?a ?b =>
          destruct (Qlt_bool a b) eqn:E;
          [apply Qlt_bool_true in E | apply Qlt_bool_false in E]
      | Qeq_bool ?a ?b =>
          destruct (Qeq_bool a b) eqn:E;
          [apply Qeq_bool_iff in E | apply Qeq_bool_false in E]
      end
  end.

(** ** The division and the two-way operations *)

Lemma div_nonzero (a b : Q) : ~ b == 0 -> div a b = inr (a / b).
Proof.
  intros H. unfold div. q_ops. now rewrite Qeq_bool_intro_false.
Qed.


Lemma max_Qmax (a b : Q) : max a b == Qmax a b.
Proof.
  unfold max. q_ops. q_case.
  - rewrite Q.max_r; lra.
  - rewrite Q.max_l; lra.
Qed.

Lemma np_maximum_Qmax (a b : Q) : np_maximum a b == Qmax a b.
Proof.
  unfold np_maximum. q_ops. q_case.
  - rewrite Q.max_l; lra.
  - rewrite Q.max_r; lra.
Qed.

Lemma np_minimum_Qmin (a b : Q) : np_minimum a b == Qmin a b.
Proof.
  unfold np_minimum. q_ops. q_case.
  - rewrite Q.min_l; lra.
  - rewrite Q.min_r; lra.
Qed.

(** ** Unfolding the loop *)

Lemma walk_nil (st : QState) : walk [] st = inr st.
Proof. reflexivity. Qed.

Lemma walk_skip (level : QLevel) rest (st : QState) :
  price level * size level <= 0 ->
  walk (level :: rest) st = walk rest st.
Proof.
  intros H. cbn [walk]. q_ops. now rewrite Qle_bool_intro.
Qed.

Lemma walk_fill (level : QLevel) rest (st : QState) :
  0 < price level * size level ->
  remaining_notional st <= price level * size level ->
  walk (level :: rest) st =
    inr {| remaining_notional := 0;
           total_cost := total_cost st + remaining_notional st;
           total_shares :=
             total_shares st + remaining_notional st / price level |}.
Proof.
  intros Hpos Hle. cbn [walk]. q_ops.
  rewrite Qle_bool_intro_false by assumption.
  rewrite Qle_bool_intro by assumption.
  rewrite div_nonzero.
  - reflexivity.
  - intros Hz. rewrite Hz in Hpos. lra.
Qed.

Lemma walk_take (level : QLevel) rest (st : QState) :
  0 < price level * size level ->
  price level * size level < remaining_notional st ->
  walk (level :: rest) st =
    walk rest
      {| remaining_notional :=
           remaining_notional st - price level * size level;
         total_cost := total_cost st + price level * size level;
         total_shares := total_shares st + size level |}.
Proof.
  intros Hpos Hlt. cbn [walk]. q_ops.
  rewrite Qle_bool_intro_false by assumption.
  now rewrite Qle_bool_intro_false by assumption.
Qed.

(** The three ways a level is treated, as a case split. *)
Lemma level_cases (level : QLevel) (rem : Q) :
  price level * size level <= 0 \/
  (0 < price level * size level /\ rem <= price level * size level) \/
  (0 < price level * size level /\ price level * size level < rem).
Proof.
  destruct (Qlt_le_dec 0 (price level * size level)) as [Hp|Hn];
    [|now left].
  right. destruct (Qlt_le_dec (price level * size level) rem); auto.
Qed.

(** ** The loop always runs to an end *)

Lemma walk_total (levels : list QLevel) :
  forall st : QState, exists st', walk levels st = inr st'.
Proof. exact (@walk_runs Q Q_PyFloat Q_zero_times levels). Qed.

Lemma settle_cases (st : QState) :
  (0 < remaining_notional st /\ settle st = inl OrderbookDepthError) \/
  (remaining_notional st <= 0 /\ total_shares st <= 0 /\
   settle st = inl OrderbookDepthError) \/
  (remaining_notional st <= 0 /\ 0 < total_shares st /\
   settle st = inr (total_cost st / total_shares st)).
Proof.
  unfold settle. q_ops. q_case; [now left|right].
  q_case; [now left|right].
  rewrite div_nonzero; [auto|].
  intros Hz. rewrite Hz in E0. lra.
Qed.

(** ** Entry check of [calculate_effective_price] *)

Lemma price_nonpositive (book : QBook) (side : Side) (n : Q) :
  n <= 0 -> calculate_effective_price book side n = inl ValueError.
Proof.
  intros H. unfold calculate_effective_price. q_ops.
  now rewrite Qle_bool_intro.
Qed.

Lemma price_positive (book : QBook) (side : Side) (n : Q) :
  0 < n ->
  calculate_effective_price book side n =
    bind (walk (side_levels book side) (initial_state n)) settle.
Proof.
  intros H. unfold calculate_effective_price. q_ops.
  now rewrite Qle_bool_intro_false.
Qed.

(** C9: no division of [calculate_effective_price] ever has a zero divisor,
    whatever the prices and sizes of the book: zero, negative or any other
    rational in exact arithmetic, and any binary64 value, infinities and NaN
    included.  The fill division is reached only past the two tests on the
    level notional, which a zero price cannot pass; the final division only
    past the test on the total shares.  So the loop never raises
    [ZeroDivisionError], from any state; the closing division never does,
    for any totals; and the call never does. *)
Theorem no_division_by_zero :
  never_divides_by_zero Q /\ never_divides_by_zero float.
Proof.
  split.
  - exact (@division_safe Q _ Q_zero_le Q_zero_times).
  - exact (@division_safe float _ binary64_zero_le binary64_zero_times).
Qed.

(** C2: the failure modes.  [ValueError] is raised exactly for a notional
    <= 0, and then whatever the book holds (nothing of it is looked at).  For
    a positive notional the loop ends in some state; the call raises
    [OrderbookDepthError] exactly when that state has something left to fill
    or no shares, and otherwise returns cost over shares.  No other exception
    is raised, and an empty ask side fails a BUY with [OrderbookDepthError].
    The same holds in binary64, with the tests as the code evaluates them. *)
Theorem failure_modes :
  (forall (book : QBook) (side : Side) (n : Q),
      (calculate_effective_price book side n = inl ValueError <-> n <= 0) /\
      (n <= 0 ->
       forall (book' : QBook) (side' : Side),
         calculate_effective_price book' side' n = inl ValueError) /\
      (0 < n ->
       exists st : QState,
         walk (side_levels book side) (initial_state n) = inr st /\
         (calculate_effective_price book side n = inl OrderbookDepthError <->
          0 < remaining_notional st \/ total_shares st <= 0) /\
         (~ (0 < remaining_notional st \/ total_shares st <= 0) ->
          calculate_effective_price book side n =
            inr (total_cost st / total_shares st))) /\
      (forall e : exn,
          calculate_effective_price book side n = inl e ->
          e = ValueError \/ e = OrderbookDepthError) /\
      (0 < n ->
       forall bids : list QLevel,
         calculate_effective_price {| bids := bids; asks := [] |} BUY n =
           inl OrderbookDepthError)) /\
  (forall (book : Orderbook float) (side : Side) (n : float),
      failure_modes_at book side n /\
      (PrimFloat.leb n 0 = false ->
       forall bids : list (OrderbookLevel float),
         calculate_effective_price {| bids := bids; asks := [] |} BUY n =
           inl OrderbookDepthError)).
Proof.
  split.
  - intros book side n.
    {
    assert (Hpos : 0 < n ->
      exists st : QState,
        walk (side_levels book side) (initial_state n) = inr st /\
        calculate_effective_price book side n = settle st).
    { intros Hn. rewrite price_positive by assumption.
      destruct (walk_total (side_levels book side) (initial_state n))
        as [st Hst].
      exists st. rewrite Hst. auto. }
    split; [|split; [|split; [|split]]].
    - split.
      + intros H. destruct (Qlt_le_dec 0 n) as [Hn|Hn]; [|assumption].
        destruct (Hpos Hn) as (st & _ & Hc). rewrite Hc in H.
        destruct (settle_cases st) as [[_ E]|[(_ & _ & E)|(_ & _ & E)]];
          rewrite E in H; discriminate.
      + apply price_nonpositive.
    - intros Hn book' side'. now apply price_nonpositive.
    - intros Hn. destruct (Hpos Hn) as (st & Hst & Hc).
      exists st. split; [assumption|]. rewrite Hc.
      destruct (settle_cases st) as [[H E]|[(H1 & H2 & E)|(H1 & H2 & E)]];
        rewrite E; split.
      + split; auto.
      + intros H'. exfalso. apply H'. auto.
      + split; auto.
      + intros H'. exfalso. apply H'. auto.
      + split; [discriminate|]. intros [H'|H']; lra.
      + reflexivity.
    - intros e H. destruct (Qlt_le_dec 0 n) as [Hn|Hn].
      + destruct (Hpos Hn) as (st & _ & Hc). rewrite Hc in H.
        destruct (settle_cases st) as [[_ E]|[(_ & _ & E)|(_ & _ & E)]];
          rewrite E in H; try discriminate; injection H as <-; auto.
      + rewrite price_nonpositive in H by assumption.
        injection H as <-. auto.
    - intros Hn bids. rewrite price_positive by assumption.
      cbn [side_levels asks walk bind ret initial_state].
      destruct (settle_cases
                  {| remaining_notional := n; total_cost := lit_0;
                     total_shares := lit_0 |})
        as [[_ E]|[(H & _ & E)|(H & _ & E)]];
        [exact E | cbn in H; lra | cbn in H; lra].
    }
  - intros book side n. split.
    + apply failure_modes_hold;
        [exact binary64_zero_le|exact binary64_zero_times].
    + intros Hn bids. unfold calculate_effective_price.
      cbn [leb lit_0 binary64_PyFloat]. rewrite Hn.
      cbn [side_levels asks walk bind ret initial_state].
      unfold settle, initial_state.
      cbn [remaining_notional total_shares total_cost].
      destruct (ltb lit_0 n); [reflexivity|].
      vm_compute. reflexivity.
Qed.

(** ** The loop against [shares_filled] and [levels_used] *)

Section Level_equations.

Variables (level : QLevel) (rest : list QLevel) (rem : Q).

Lemma shares_filled_skip :
  price level * size level <= 0 ->
  shares_filled (level :: rest) rem = shares_filled rest rem.
Proof. intros H. cbn. now rewrite Qle_bool_intro. Qed.

Lemma shares_filled_fill :
  0 < price level * size level -> rem <= price level * size level ->
  shares_filled (level :: rest) rem = Some (rem / price level).
Proof.
  intros Hp Hf. cbn [shares_filled].
  rewrite Qle_bool_intro_false by assumption.
  now rewrite Qle_bool_intro.
Qed.

Lemma shares_filled_take :
  0 < price level * size level -> price level * size level < rem ->
  shares_filled (level :: rest) rem =
    option_map (Qplus (size level))
      (shares_filled rest (rem - price level * size level)).
Proof.
  intros Hp Ht. cbn [shares_filled].
  rewrite Qle_bool_intro_false by assumption.
  now rewrite Qle_bool_intro_false.
Qed.




End Level_equations.

(** What the loop leaves in its state: after a fill, nothing remains, the
    cost has grown by what remained, and the shares by [shares_filled];
    without one, something still remains. *)
Lemma walk_shares (levels : list QLevel) :
  forall st st' : QState,
    0 < remaining_notional st ->
    walk levels st = inr st' ->
    match shares_filled levels (remaining_notional st) with
    | Some g =>
        remaining_notional st' = 0 /\
        total_cost st' == total_cost st + remaining_notional st /\
        total_shares st' == total_shares st + g
    | None => 0 < remaining_notional st'
    end.
Proof.
  induction levels as [|level rest IH]; intros st st' Hrem Hw.
  - rewrite walk_nil in Hw. injection Hw as <-. exact Hrem.
  - destruct (level_cases level (remaining_notional st))
      as [Hs|[[Hp Hf]|[Hp Ht]]].
    + rewrite walk_skip in Hw by assumption.
      rewrite shares_filled_skip by assumption. now apply IH.
    + rewrite walk_fill in Hw by assumption. injection Hw as <-.
      rewrite shares_filled_fill by assumption. cbn.
      repeat split; reflexivity.
    + rewrite walk_take in Hw by assumption.
      rewrite shares_filled_take by assumption.
      apply IH in Hw; [|cbn; lra]. cbn in Hw.
      destruct (shares_filled rest
                  (remaining_notional st - price level * size level))
        as [g|]; cbn; [|exact Hw].
      destruct Hw as (H0 & Hc & Hs). repeat split; [assumption| |].
      * rewrite Hc. ring.
      * rewrite Hs. ring.
Qed.

(** ** Depth: when the levels suffice *)





(** ** Bounds on the fill price *)









(** ** Early stop, over exact arithmetic *)

(** Over [Q], a loop that never breaks leaves something to fill. *)
Lemma walk_without_break (levels : list QLevel) :
  forall st st' : QState,
    0 < remaining_notional st ->
    completing_index levels (remaining_notional st) = None ->
    walk levels st = inr st' ->
    0 < remaining_notional st'.
Proof.
  induction levels as [|level rest IH]; intros st st' Hrem Hc Hw.
  - rewrite walk_nil in Hw. now injection Hw as <-.
  - cbn [completing_index] in Hc. q_ops.
    destruct (level_cases level (remaining_notional st))
      as [Hs|[[Hp Hf]|[Hp Ht]]].
    + rewrite walk_skip in Hw by assumption.
      rewrite Qle_bool_intro in Hc by assumption.
      apply (IH st st'); [assumption| |assumption].
      destruct (completing_index rest (remaining_notional st));
        [discriminate|reflexivity].
    + rewrite Qle_bool_intro_false in Hc by assumption.
      rewrite Qle_bool_intro in Hc by assumption. discriminate.
    + rewrite walk_take in Hw by assumption.
      rewrite Qle_bool_intro_false in Hc by assumption.
      rewrite Qle_bool_intro_false in Hc by assumption.
      apply IH in Hw; [assumption|cbn; lra|cbn].
      destruct (completing_index rest
                  (remaining_notional st - price level * size level));
        [discriminate|reflexivity].
Qed.

(** C5: a call that succeeds has reached a completing level, at some
    position [k] of the traversed side; any levels appended to that side
    leave the returned price as it is, and so does any change of the book
    that keeps the first [k+1] levels of that side.  In binary64 too, once
    the loop has a completing level at [k], the result is that of any book
    with the same first [k+1] levels on that side. *)
Theorem early_stop :
  (forall (book : QBook) (side : Side) (n p : Q),
      calculate_effective_price book side n = inr p ->
      exists k : nat,
        completing_index (side_levels book side) n = Some k /\
        (k < length (side_levels book side))%nat /\
        (forall (book' : QBook) (extra : list QLevel),
            side_levels book' side = side_levels book side ++ extra ->
            calculate_effective_price book' side n = inr p) /\
        (forall book' : QBook,
            firstn (S k) (side_levels book' side) =
              firstn (S k) (side_levels book side) ->
            calculate_effective_price book' side n = inr p)) /\
  (forall (book book' : Orderbook float) (side : Side) (n : float)
          (k : nat),
      completing_index (side_levels book side) n = Some k ->
      firstn (S k) (side_levels book' side) =
        firstn (S k) (side_levels book side) ->
      calculate_effective_price book' side n =
        calculate_effective_price book side n).
Proof.
  split; [|intros book book' side n k; apply price_prefix_only].
  intros book side n p Hp.
  assert (Hn : 0 < n).
  { destruct (Qlt_le_dec 0 n) as [|Hn]; [assumption|].
    rewrite price_nonpositive in Hp by assumption. discriminate. }
  destruct (completing_index (side_levels book side) n) as [k|] eqn:Hk.
  - destruct (completing_index_firstn _ _ Hk) as [_ Hlt].
    assert (Hprefix : forall book' : QBook,
               firstn (S k) (side_levels book' side) =
                 firstn (S k) (side_levels book side) ->
               calculate_effective_price book' side n = inr p).
    { intros book' Hpre. rewrite <- Hp.
      now apply price_prefix_only with (k := k). }
    exists k. repeat split; try assumption.
    intros book' extra Happ. apply Hprefix. rewrite Happ.
    rewrite firstn_app.
    replace (S k - length (side_levels book side))%nat with 0%nat by lia.
    cbn [firstn]. apply app_nil_r.
  - exfalso. rewrite price_positive in Hp by assumption.
    destruct (walk_total (side_levels book side) (initial_state n))
      as [st Hst].
    rewrite Hst in Hp. cbn [bind] in Hp.
    pose proof (walk_without_break (side_levels book side)
                  (initial_state n) Hn Hk Hst) as Hrem.
    destruct (settle_cases st) as [[_ E]|[(H & _)|(H & _)]];
      [rewrite E in Hp; discriminate|lra|lra].
Qed.

Lemma early_stop_witness :
  exists k : nat,
    completing_index (side_levels sample_book BUY) 30 = Some k /\
    (k < length (side_levels sample_book BUY))%nat /\
    (forall (book' : QBook) (extra : list QLevel),
        side_levels book' BUY = side_levels sample_book BUY ++ extra ->
        calculate_effective_price book' BUY 30 = inr (1500000000 # 3500000000)) /\
    (forall book' : QBook,
        firstn (S k) (side_levels book' BUY) =
          firstn (S k) (side_levels sample_book BUY) ->
        calculate_effective_price book' BUY 30 = inr (1500000000 # 3500000000)).
Proof.
  apply (proj1 early_stop sample_book BUY 30 (1500000000 # 3500000000)).
  vm_compute. reflexivity.
Defined.

(** ** Monotonicity in the trade size *)

Lemma price_as_quotient (book : QBook) (side : Side) (n p : Q) :
  calculate_effective_price book side n = inr p ->
  exists g,
    shares_filled (side_levels book side) n = Some g /\
    0 < n /\ 0 < g /\ p == n / g.
Proof.
  intros Hp.
  assert (Hn : 0 < n).
  { destruct (Qlt_le_dec 0 n) as [|Hn]; [assumption|].
    rewrite price_nonpositive in Hp by assumption. discriminate. }
  rewrite price_positive in Hp by assumption.
  destruct (walk_total (side_levels book side) (initial_state n))
    as [st Hst].
  rewrite Hst in Hp. cbn [bind] in Hp.
  pose proof (walk_shares _ (initial_state n) Hn Hst) as Hsh.
  cbn [initial_state remaining_notional total_cost total_shares] in Hsh.
  q_ops.
  destruct (settle_cases st) as [[_ E]|[(_ & _ & E)|(_ & Hpos & E)]];
    rewrite E in Hp; try discriminate.
  injection Hp as <-.
  destruct (shares_filled (side_levels book side) n) as [g|].
  - destruct Hsh as (_ & Hc & Hs). exists g.
    repeat split; [assumption|lra|].
    rewrite Hc, Hs. now rewrite !Qplus_0_l.
  - destruct (settle_cases st) as [[_ E']|[(H & _)|(H & _)]];
      [rewrite E' in E; discriminate|lra|lra].
Qed.








(** ** Clamping *)

Lemma np_clip_clamp (x lo hi : Q) :
  lo <= hi -> np_clip x lo hi == clamp x lo hi.
Proof.
  intros H. unfold np_clip, clamp.
  rewrite np_minimum_Qmin.
  pose proof (np_maximum_Qmax x lo) as Hm.
  destruct (Q.min_spec (np_maximum x lo) hi) as [[? ->]|[? ->]];
    destruct (Q.min_spec x hi) as [[? ->]|[? ->]];
    destruct (Q.max_spec x lo) as [[? Hx]|[? Hx]]; rewrite Hx in Hm;
    match goal with
    | |- _ == Qmax ?a ?b =>
        destruct (Q.max_spec a b) as [[? ->]|[? ->]]
    end; lra.
Qed.

Lemma clamp_range (x lo hi : Q) :
  lo <= hi -> lo <= clamp x lo hi <= hi.
Proof.
  intros H. unfold clamp.
  destruct (Q.min_spec x hi) as [[? ->]|[? ->]];
    match goal with
    | |- _ <= Qmax ?a ?b <= _ =>
        destruct (Q.max_spec a b) as [[? ->]|[? ->]]
    end; lra.
Qed.

(** Over exact arithmetic: for every belief and strength, in range or not,
    [parameters] returns alpha = clamp(belief,0,1) x clamp(strength,1,100) +
    1 and beta = (1 - clamp(belief,0,1)) x clamp(strength,1,100) + 1; it has
    no operation that could raise, and both values are at least 1, hence
    positive. In binary64, belief 0.5 with strength 1 gives (1.5, 1.5), and
    the out-of-range belief 1.5 with strength 250 gives (101, 1). *)
Lemma shape_exact :
  (forall belief strength : Q,
      let self := {| BetaModel.belief_probability := belief;
                     BetaModel.confidence_strength := strength |} in
      let alpha := fst (BetaModel.parameters self) in
      let beta := snd (BetaModel.parameters self) in
      alpha == clamp belief 0 1 * clamp strength 1 100 + 1 /\
      beta == (1 - clamp belief 0 1) * clamp strength 1 100 + 1 /\
      (1 <= alpha /\ 1 <= beta) /\
      (0 < alpha /\ 0 < beta)) /\
  BetaModel.parameters
    {| BetaModel.belief_probability := 0.5%float;
       BetaModel.confidence_strength := 1%float |} =
    (1.5%float, 1.5%float) /\
  BetaModel.parameters
    {| BetaModel.belief_probability := 1.5%float;
       BetaModel.confidence_strength := 250%float |} =
    (101%float, 1%float).
Proof.
  split; [|split; vm_compute; reflexivity].
  intros belief strength.
  cbn zeta. unfold BetaModel.parameters.
  cbn [fst snd BetaModel.belief_probability BetaModel.confidence_strength].
  q_ops.
  assert (H01 : 0 <= 1) by lra. assert (H1100 : 1 <= 100) by lra.
  pose proof (np_clip_clamp belief H01) as Hb.
  pose proof (np_clip_clamp strength H1100) as Hs.
  pose proof (clamp_range belief H01) as Rb.
  pose proof (clamp_range strength H1100) as Rs.
  rewrite Hb, Hs.
  set (b := clamp belief 0 1) in *. set (s := clamp strength 1 100) in *.
  assert (0 <= b * s) by nra.
  assert (0 <= (1 - b) * s) by nra.
  repeat split; try reflexivity; lra.
Qed.

(** ** Trade metrics *)

(** Division by the Kelly denominator never raises: the denominator is at
    least 1e-6. *)
Lemma trade_metrics_value (entry_price target_probability trade_size : Q) :
  let price := np_clip entry_price 0 1 in
  let probability := np_clip target_probability 0 1 in
  let ev := probability * 1 - price in
  let denominator := max (1 - price) (1 # 1000000) in
  0 < denominator /\
  compute_trade_metrics entry_price target_probability trade_size =
    inr {| trade_size_usd := trade_size;
           belief_probability := probability;
           effective_entry_price := price;
           ev_percentage := ev * 100;
           kelly_fraction := max 0 (ev / denominator) |}.
Proof.
  cbn zeta.
  assert (Hden : 0 < max (1 - np_clip entry_price 0 1) (1 # 1000000)).
  { rewrite max_Qmax.
    eapply Qlt_le_trans; [|apply Q.le_max_r]. reflexivity. }
  split; [exact Hden|].
  unfold compute_trade_metrics. q_ops.
  rewrite div_nonzero; [reflexivity|].
  intros Hz. rewrite Hz in Hden. lra.
Qed.




(** ** Worked example: a fill that spans two levels *)

(** C3: asks (0.40, 50) and (0.50, 100), notional 30.  The first level is
    taken whole (20 of notional, 50 shares, 10 left); the second fills the
    remaining 10 at 0.50, which adds 10 / 0.50 = 20 shares and not its size
    of 100; the call returns 30 / 70.  Binary64 returns the float nearest
    to 30 / 70. *)
Theorem partial_fill_two_levels :
  (exists st1 st2 p,
      walk [ {| price := 0.40; size := 50 |} ] (initial_state 30) = inr st1 /\
      (remaining_notional st1 == 10 /\ total_cost st1 == 20 /\
       total_shares st1 == 50) /\
      walk [ {| price := 0.50; size := 100 |} ] st1 = inr st2 /\
      walk sample_asks (initial_state 30) = inr st2 /\
      (remaining_notional st2 == 0 /\ total_cost st2 == 30 /\
       total_shares st2 == 70) /\
      total_shares st2 - total_shares st1 == 10 / 0.50 /\
      calculate_effective_price sample_book BUY 30 = inr p /\
      p == total_cost st2 / total_shares st2 /\
      p == 30 / 70) /\
  calculate_effective_price sample_book64 BUY 30%float =
    inr 0.42857142857142855%float.
Proof.
  split.
  - eexists _, _, _.
    split; [vm_compute; reflexivity|].
    split; [repeat split; vm_compute; reflexivity|].
    split; [vm_compute; reflexivity|].
    split; [vm_compute; reflexivity|].
    split; [repeat split; vm_compute; reflexivity|].
    split; [vm_compute; reflexivity|].
    split; [vm_compute; reflexivity|].
    split; vm_compute; reflexivity.
  - vm_compute. reflexivity.
Qed.

(** * Further properties of the engine *)

(** ** Skipped levels do not matter *)

Lemma walk_prune {F : Type} {num : PyFloat F}
      (levels : list (OrderbookLevel F)) :
  forall st : walk_state F, walk (filter live levels) st = walk levels st.
Proof.
  induction levels as [|level rest IH]; intros st.
  - reflexivity.
  - cbn [filter walk]. unfold live at 1.
    destruct (leb (mul (price level) (size level)) lit_0) eqn:Eskip;
      cbn [negb].
    + apply IH.
    + cbn [walk]. rewrite Eskip.
      destruct (leb (remaining_notional st)
                    (mul (price level) (size level)));
        [reflexivity|apply IH].
Qed.

(** X1: removing from both sides every level whose notional is [<= 0]
    leaves
    the result of the call as it is, in any arithmetic. *)
Theorem skipped_levels_irrelevant {F : Type} {num : PyFloat F}
        (book : Orderbook F) (side : Side) (n : F) :
  calculate_effective_price (prune book) side n =
    calculate_effective_price book side n.
Proof.
  unfold calculate_effective_price.
  destruct (leb n lit_0); [reflexivity|].
  replace (side_levels (prune book) side)
    with (filter live (side_levels book side)) by (now destruct side).
  now rewrite walk_prune.
Qed.

(** ** What a successful call has spent *)



(** ** Depth and price range on either side *)




(** ** No slippage inside the best level *)



(** ** Slippage between the best level and the completing level *)



Section Sorted_ends.

Variable R : QLevel -> QLevel -> Prop.
Hypothesis R_refl : forall x, R x x.




End Sorted_ends.



(** * Further properties of the trade metrics *)




(** * Trade metrics in binary64 *)

Ltac b64_ops :=
  cbn [leb ltb eqb add sub mul raw_div lit_0 lit_1 lit_100 lit_1e_6 is_nan
       binary64_PyFloat] in *.

Lemma binary64_floor_nonzero (a : float) :
  PrimFloat.ltb a 0x1.0c6f7a0b5ed8dp-20 = false ->
  PrimFloat.eqb a 0 = false.
Proof.
  intros Hlt. destruct (PrimFloat.eqb a 0) eqn:Ez; [|reflexivity].
  destruct (binary64_eqb_zero Ez) as [s Hs].
  rewrite ltb_spec, Hs in Hlt. vm_compute in Hlt. discriminate.
Qed.

Lemma binary64_positive (q : float) :
  PrimFloat.ltb 0 q = true ->
  PrimFloat.ltb q 0 = false /\ PrimFloat.eqb q q = true.
Proof.
  rewrite !ltb_spec, eqb_spec, Prim2SF_zero.
  destruct (Prim2SF q) as [s|s| |s m e]; cbn.
  - discriminate.
  - destruct s; [discriminate|auto].
  - discriminate.
  - destruct s; [discriminate|]. intros _. split; [reflexivity|].
    unfold SFeqb, SFcompare.
    now rewrite Z.compare_refl, Pos.compare_cont_refl.
Qed.

Lemma metrics_binary64
        (entry_price target_probability trade_size : float) :
  exists scenario,
    compute_trade_metrics entry_price target_probability trade_size =
      inr scenario /\
    PrimFloat.ltb (kelly_fraction scenario) 0 = false /\
    is_nan (kelly_fraction scenario) = false.
Proof.
  unfold compute_trade_metrics.
  set (price := np_clip entry_price lit_0 lit_1).
  set (ev := sub (mul (np_clip target_probability lit_0 lit_1) lit_1) price).
  assert (Hden : eqb (max (sub lit_1 price) lit_1e_6) lit_0 = false).
  { unfold max. b64_ops.
    destruct (PrimFloat.ltb (PrimFloat.sub 1 price) 0x1.0c6f7a0b5ed8dp-20)
      eqn:Hlt.
    - vm_compute. reflexivity.
    - now apply binary64_floor_nonzero. }
  unfold div at 1. rewrite Hden. cbn [bind ret].
  eexists. split; [reflexivity|]. cbn [kelly_fraction].
  set (q := raw_div ev (max (sub lit_1 price) lit_1e_6)).
  unfold max. b64_ops.
  destruct (PrimFloat.ltb 0 q) eqn:Hq.
  - destruct (binary64_positive Hq) as [-> ->]. auto.
  - split; vm_compute; reflexivity.
Qed.

(** X12: for every binary64 input, infinities and NaN included,
    [compute_trade_metrics] returns a scenario: the floor of 1e-6 keeps the
    divisor from comparing equal to zero.  The Kelly fraction it returns is
    never negative and never NaN. *)
Theorem metrics_total_binary64
        (entry_price target_probability trade_size : float) :
  exists scenario,
    compute_trade_metrics entry_price target_probability trade_size =
      inr scenario /\
    PrimFloat.ltb (kelly_fraction scenario) 0 = false /\
    is_nan (kelly_fraction scenario) = false.
Proof.
  destruct (metrics_binary64 entry_price target_probability trade_size)
    as (scenario & Hs & Hneg & Hnan).
  exists scenario. auto.
Qed.

(** * The analysis panel *)

Lemma analysis_unfold (orderbook : QBook) (trade_size belief : Q) :
  0 < trade_size ->
  (calculate_effective_price orderbook BUY trade_size =
     inl OrderbookDepthError /\
   trade_analysis orderbook trade_size belief = inl OrderbookDepthError) \/
  (exists p scenario,
      calculate_effective_price orderbook BUY trade_size = inr p /\
      compute_trade_metrics p belief trade_size = inr scenario /\
      trade_analysis orderbook trade_size belief = inr scenario).
Proof.
  intros Hn. unfold trade_analysis.
  destruct (calculate_effective_price orderbook BUY trade_size)
    as [e|p] eqn:Hp.
  - left. rewrite price_positive in Hp by assumption.
    destruct (walk_total (side_levels orderbook BUY)
                (initial_state trade_size)) as [st Hst].
    rewrite Hst in Hp. cbn [bind] in Hp.
    destruct (settle_cases st) as [[_ E]|[(_ & _ & E)|(_ & _ & E)]];
      rewrite E in Hp; [| |discriminate];
      injection Hp as <-; auto.
  - right.
    destruct (trade_metrics_value p belief trade_size) as [_ Hv].
    exists p. eexists.
    split; [reflexivity|]. split; [exact Hv|]. cbn [bind]. exact Hv.
Qed.

(** X13: with the trade size the slider allows (10 or more), the analysis can
    only fail with [OrderbookDepthError], and it does so on the empty book
    that a failed request yields. *)
Theorem analysis_failures (orderbook : QBook) (trade_size belief : Q) :
  10 <= trade_size ->
  (forall e,
      trade_analysis orderbook trade_size belief = inl e ->
      e = OrderbookDepthError) /\
  trade_analysis empty_orderbook trade_size belief =
    inl OrderbookDepthError.
Proof.
  intros Hsize. assert (Hn : 0 < trade_size) by lra. split.
  - intros e He.
    destruct (analysis_unfold orderbook belief Hn)
      as [[_ E]|(p & sc & _ & _ & E)]; rewrite E in He;
      [now injection He as <-|discriminate].
  - destruct (analysis_unfold empty_orderbook belief Hn)
      as [[_ E]|(p & sc & Hp & _)]; [exact E|exfalso].
    destruct (price_as_quotient _ _ _ Hp) as (g & Hg & _).
    discriminate.
Qed.

Lemma analysis_failures_witness :
  (forall e,
      trade_analysis sample_book 250 0.55 = inl e ->
      e = OrderbookDepthError) /\
  trade_analysis empty_orderbook 250 0.55 = inl OrderbookDepthError.
Proof.
  apply (@analysis_failures sample_book 250 0.55).
  vm_compute. discriminate.
Defined.

(** X15: in binary64, whatever the book, the trade size and the belief
    (infinities and NaN included), the analysis never ends in
    [ZeroDivisionError]; a scenario it returns has a Kelly fraction that is
    neither negative nor NaN; and on the empty book every trade size that
    passes the entry check ends in [OrderbookDepthError]. *)
Theorem analysis_binary64 (orderbook : Orderbook float)
        (trade_size belief : float) :
  trade_analysis orderbook trade_size belief <> inl ZeroDivisionError /\
  (forall scenario,
      trade_analysis orderbook trade_size belief = inr scenario ->
      PrimFloat.ltb (kelly_fraction scenario) 0 = false /\
      is_nan (kelly_fraction scenario) = false) /\
  (PrimFloat.leb trade_size 0 = false ->
   trade_analysis empty_orderbook trade_size belief =
     inl OrderbookDepthError).
Proof.
  unfold trade_analysis. split; [|split].
  - destruct (calculate_effective_price orderbook BUY trade_size)
      as [e|p] eqn:Hp; cbn [bind].
    + intros [= ->].
      destruct (@division_safe float binary64_PyFloat binary64_zero_le
                  binary64_zero_times) as (_ & _ & Hsafe).
      now apply Hsafe in Hp.
    + destruct (metrics_binary64 p belief trade_size) as (sc & -> & _).
      discriminate.
  - intros scenario.
    destruct (calculate_effective_price orderbook BUY trade_size)
      as [e|p]; cbn [bind]; [discriminate|].
    destruct (metrics_binary64 p belief trade_size)
      as (sc & -> & Hneg & Hnan).
    now intros [= <-].
  - intros Hn. unfold calculate_effective_price.
    b64_ops. rewrite Hn.
    cbn [side_levels asks empty_orderbook walk bind ret].
    unfold settle, initial_state.
    cbn [remaining_notional total_shares total_cost]. b64_ops.
    destruct (PrimFloat.ltb 0 trade_size); [reflexivity|].
    vm_compute. reflexivity.
Qed.

(** * Binary64 against exact arithmetic *)

(** ** Comparisons decide as over the rationals *)

Lemma digits2_pos_size (m : positive) : digits2_pos m = Pos.size m.
Proof. induction m; cbn; congruence. Qed.

Lemma two_power_pos (e : Z) : 0 < 2 ^ e.
Proof. apply Qpower_0_lt. reflexivity. Qed.

(** A canonical mantissa has at most 53 bits, and exactly 53 above the
    least exponent. *)
Lemma bounded_facts (m : positive) (e : Z) :
  bounded prec emax m e = true ->
  (Zpos m < 2 ^ 53)%Z /\ (-1074 <= e)%Z /\
  ((-1074 < e)%Z -> (2 ^ 52 <= Zpos m)%Z).
Proof.
  unfold bounded, canonical_mantissa, fexp, emin, prec, emax.
  intros H. apply andb_prop in H. destruct H as [H _].
  apply Z.eqb_eq in H. rewrite digits2_pos_size in H.
  pose proof (Pos.size_gt m) as Hgt. pose proof (Pos.size_le m) as Hle.
  assert (Hd : (Zpos (Pos.size m) <= 53)%Z) by lia.
  split; [|split].
  - apply Z.lt_le_trans with (2 ^ Zpos (Pos.size m))%Z.
    + rewrite <- Pos2Z.inj_pow. now apply Pos2Z.pos_lt_pos.
    + apply Z.pow_le_mono_r; lia.
  - lia.
  - intros He. assert (Hs : Pos.size m = 53%positive) by lia.
    rewrite Hs in Hle.
    apply Pos2Z.pos_le_pos in Hle. rewrite Pos2Z.inj_pow in Hle.
    change (Z.pos m~0) with (2 * Z.pos m)%Z in Hle.
    change (2 ^ 53)%Z with (2 * 2 ^ 52)%Z in Hle. lia.
Qed.

Lemma scaled_lt (z1 z2 : Z) (e : Z) :
  (z1 < z2)%Z -> inject_Z z1 * 2 ^ e < inject_Z z2 * 2 ^ e.
Proof.
  intros H. apply Qmult_lt_compat_r; [apply two_power_pos|].
  now rewrite <- Zlt_Qlt.
Qed.

Lemma two_power_split (e1 e2 : Z) :
  (e1 <= e2)%Z -> 2 ^ e2 == inject_Z (2 ^ (e2 - e1)) * 2 ^ e1.
Proof.
  intros H. rewrite Zpower_Qpower by lia.
  rewrite <- Qpower_plus by discriminate.
  now replace (e2 - e1 + e1)%Z with e2 by lia.
Qed.

(** Of two positive canonical numbers the one with the larger exponent is
    the larger. *)
Lemma exponent_order (m1 m2 : positive) (e1 e2 : Z) :
  bounded prec emax m1 e1 = true ->
  bounded prec emax m2 e2 = true ->
  (e1 < e2)%Z ->
  inject_Z (Zpos m1) * 2 ^ e1 < inject_Z (Zpos m2) * 2 ^ e2.
Proof.
  intros H1 H2 He.
  destruct (bounded_facts m1 e1 H1) as (Hm1 & He1 & _).
  destruct (bounded_facts m2 e2 H2) as (_ & _ & Hm2).
  rewrite (@two_power_split e1 e2) by lia.
  rewrite Qmult_assoc, <- inject_Z_mult.
  apply scaled_lt.
  assert (2 <= 2 ^ (e2 - e1))%Z.
  { change 2%Z with (2 ^ 1)%Z at 1. apply Z.pow_le_mono_r; lia. }
  assert (2 ^ 52 <= Zpos m2)%Z by (apply Hm2; lia).
  change (2 ^ 53)%Z with (2 ^ 52 * 2)%Z in Hm1. nia.
Qed.

Lemma SFcompare_value (x y : spec_float) (a b : Q) :
  valid_binary x = true -> valid_binary y = true ->
  SF2Q x = Some a -> SF2Q y = Some b ->
  match SFcompare x y with
  | Some Lt => a < b
  | Some Eq => a == b
  | Some Gt => b < a
  | None => False
  end.
Proof.
  intros Vx Vy Hx Hy.
  destruct x as [sx|sx| |sx mx ex]; try discriminate;
    destruct y as [sy|sy| |sy my ey]; try discriminate;
    cbn in Hx, Hy; injection Hx as <-; injection Hy as <-; cbn in Vx, Vy.
  - cbn. reflexivity.
  - pose proof (two_power_pos ey).
    assert (0 < inject_Z (Zpos my)) by reflexivity.
    destruct sy; cbn.
    + change (inject_Z (Z.neg my)) with (- inject_Z (Z.pos my)). nra.
    + nra.
  - pose proof (two_power_pos ex).
    assert (0 < inject_Z (Zpos mx)) by reflexivity.
    destruct sx; cbn.
    + change (inject_Z (Z.neg mx)) with (- inject_Z (Z.pos mx)). nra.
    + nra.
  - pose proof (two_power_pos ex). pose proof (two_power_pos ey).
    assert (0 < inject_Z (Zpos mx)) by reflexivity.
    assert (0 < inject_Z (Zpos my)) by reflexivity.
    assert (Hneg : forall m, inject_Z (Z.neg m) = - inject_Z (Z.pos m))
      by reflexivity.
    destruct sx, sy; cbn [SFcompare cond_Zopp Z.opp]; rewrite ?Hneg.
    + destruct (Z.compare_spec ex ey) as [He|He|He]; cbn.
      * subst ey.
        change (Pos.compare_cont Eq mx my) with (Pos.compare mx my).
        destruct (Pos.compare_spec mx my) as [Hm|Hm|Hm]; cbn.
        -- subst. reflexivity.
        -- pose proof (@scaled_lt (Zpos mx) (Zpos my) ex
                         ltac:(now apply Pos2Z.pos_lt_pos)). lra.
        -- pose proof (@scaled_lt (Zpos my) (Zpos mx) ex
                         ltac:(now apply Pos2Z.pos_lt_pos)). lra.
      * pose proof (@exponent_order mx my ex ey Vx Vy He). lra.
      * pose proof (@exponent_order my mx ey ex Vy Vx He). lra.
    + nra.
    + nra.
    + destruct (Z.compare_spec ex ey) as [He|He|He]; cbn.
      * subst ey.
        change (Pos.compare_cont Eq mx my) with (Pos.compare mx my).
        destruct (Pos.compare_spec mx my) as [Hm|Hm|Hm]; cbn.
        -- subst. reflexivity.
        -- now apply scaled_lt, Pos2Z.pos_lt_pos.
        -- now apply scaled_lt, Pos2Z.pos_lt_pos.
      * now apply exponent_order.
      * now apply exponent_order.
Qed.

Section Compare_values.

Variables (x y : float) (a b : Q).
Hypothesis Hx : value x = Some a.
Hypothesis Hy : value y = Some b.




End Compare_values.

(** ** Numbers that stand for a rational *)










Section Compare_exact.

Variables (x y : float) (a b : Q).
Hypothesis Hx : exact x a = true.
Hypothesis Hy : exact y b = true.




End Compare_exact.

(** ** A run without rounding is the run over the rationals *)










(** ** Depth and price range of a BUY *)




(** ** Monotonicity in the trade size *)




(** ** Further properties of calls that run without rounding *)









(** * Rounding in binary64 *)

(** Binary64 rounds to nearest; what is used of it below is that it does
    not cross 0 or 1: the rounded value of a number that is at least 0 is
    at least 0, and the rounded value of a number that is at least 1 is at
    least 1.  The lemmas follow the rounding function of [SpecFloat]:
    the mantissa is shifted right to 53 bits, rounded, and shifted once
    more if the rounding carried. *)

Section Rounding.

Local Open Scope Z_scope.

Lemma shr_1_half (mrs : shr_record) :
  0 <= shr_m mrs -> shr_m (shr_1 mrs) = shr_m mrs / 2.
Proof.
  destruct mrs as [m r s]. cbn [shr_m]. intros Hm.
  rewrite <- Z.div2_div.
  destruct m as [|[p|p|]|p]; try reflexivity; lia.
Qed.

Lemma iter_shr_1 (p : positive) :
  forall mrs, 0 <= shr_m mrs ->
    shr_m (iter_pos shr_1 p mrs) = shr_m mrs / 2 ^ Zpos p.
Proof.
  induction p as [p IH|p IH|]; intros mrs Hm; cbn [iter_pos].
  - assert (H1 : 0 <= shr_m (shr_1 mrs)).
    { rewrite shr_1_half by assumption. apply Z.div_pos; lia. }
    assert (H2 : 0 <= shr_m (iter_pos shr_1 p (shr_1 mrs))).
    { rewrite IH by assumption. apply Z.div_pos; [lia|].
      apply Z.pow_pos_nonneg; lia. }
    rewrite IH, IH, shr_1_half by assumption.
    rewrite !Z.div_div by (try apply Z.pow_pos_nonneg; lia).
    f_equal. replace (Z.pos p~1) with (1 + Z.pos p + Z.pos p) by lia.
    rewrite !Z.pow_add_r by lia. change (2 ^ 1) with 2. ring.
  - assert (H2 : 0 <= shr_m (iter_pos shr_1 p mrs)).
    { rewrite IH by assumption. apply Z.div_pos; [lia|].
      apply Z.pow_pos_nonneg; lia. }
    rewrite IH, IH by assumption.
    rewrite !Z.div_div by (try apply Z.pow_pos_nonneg; lia).
    f_equal. replace (Z.pos p~0) with (Z.pos p + Z.pos p) by lia.
    now rewrite Z.pow_add_r by lia.
  - rewrite shr_1_half by assumption. reflexivity.
Qed.

Lemma shr_record_of_loc_m (m : Z) (l : location) :
  shr_m (shr_record_of_loc m l) = m.
Proof. destruct l as [|[| |]]; reflexivity. Qed.

Lemma shr_fexp_nonneg (m e : Z) (l : location) :
  0 <= m -> 0 <= shr_m (fst (shr_fexp prec emax m e l)).
Proof.
  intros Hm. unfold shr_fexp, shr.
  destruct (fexp prec emax (Zdigits2 m + e) - e) as [|p|p]; cbn [fst];
    rewrite ?iter_shr_1; rewrite ?shr_record_of_loc_m; try assumption.
  apply Z.div_pos; [assumption|]. apply Z.pow_pos_nonneg; lia.
Qed.

Lemma digits_bounds (m : positive) :
  2 ^ (Zpos (digits2_pos m) - 1) <= Zpos m < 2 ^ Zpos (digits2_pos m).
Proof.
  rewrite digits2_pos_size.
  pose proof (Pos.size_gt m) as Hgt. pose proof (Pos.size_le m) as Hle.
  split.
  - apply Pos2Z.pos_le_pos in Hle. rewrite Pos2Z.inj_pow in Hle.
    change (Z.pos m~0) with (2 * Z.pos m) in Hle.
    replace (Zpos (Pos.size m)) with (Z.succ (Zpos (Pos.size m) - 1)) in Hle
      by lia.
    rewrite Z.pow_succ_r in Hle by lia. lia.
  - rewrite <- Pos2Z.inj_pow. now apply Pos2Z.pos_lt_pos.
Qed.

Lemma shr_fexp_above_one (m e : Z) (l : location) :
  above_one m e ->
  above_one (shr_m (fst (shr_fexp prec emax m e l)))
            (snd (shr_fexp prec emax m e l)).
Proof.
  intros [Hm He]. destruct m as [|mp|mp]; try lia.
  unfold shr_fexp, shr. cbn [Zdigits2].
  pose proof (digits_bounds mp) as [Hlo Hhi].
  set (d := Zpos (digits2_pos mp)) in *.
  assert (Hde : 1 <= d + e).
  { destruct (Z.le_gt_cases e 0) as [Hle|Hgt]; [|lia].
    assert (2 ^ (- e) < 2 ^ d) by lia.
    apply Z.pow_lt_mono_r_iff in H; lia. }
  destruct (fexp prec emax (d + e) - e) as [|p|p] eqn:En; cbn [fst snd];
    rewrite ?shr_record_of_loc_m; try (split; assumption).
  rewrite iter_shr_1 by (rewrite shr_record_of_loc_m; lia).
  rewrite shr_record_of_loc_m.
  unfold fexp, emin, prec, emax in En.
  assert (Hp : Zpos p = d - 53) by lia.
  rewrite Hp.
  assert (Hm' : 2 ^ 52 <= Zpos mp / 2 ^ (d - 53)).
  { apply Z.div_le_lower_bound; [apply Z.pow_pos_nonneg; lia|].
    rewrite <- Z.pow_add_r by lia.
    now replace (d - 53 + 52) with (d - 1) by lia. }
  split; [lia|].
  apply Z.le_trans with (2 ^ 52); [|exact Hm'].
  destruct (Z.le_gt_cases 0 (- (e + (d - 53)))) as [Hle|Hgt].
  - apply Z.pow_le_mono_r; lia.
  - rewrite Z.pow_neg_r by lia. lia.
Qed.

Lemma round_nearest_even_bounds (m : Z) (l : location) :
  m <= round_nearest_even m l <= m + 1.
Proof.
  unfold round_nearest_even.
  destruct l as [|[| |]]; try destruct (Z.even m); lia.
Qed.

Lemma above_one_mono (m m' e : Z) :
  above_one m e -> m <= m' -> above_one m' e.
Proof. unfold above_one. lia. Qed.

(** Rounding a nonnegative number gives a nonnegative number. *)
Lemma binary_round_aux_nonneg (mx ex : Z) (lx : location) :
  0 <= mx -> nonneg (binary_round_aux prec emax false mx ex lx).
Proof.
  intros Hm. unfold binary_round_aux.
  pose proof (@shr_fexp_nonneg mx ex lx Hm) as H1.
  destruct (shr_fexp prec emax mx ex lx) as [mrs' e']. cbn [fst] in H1.
  pose proof (round_nearest_even_bounds (shr_m mrs') (loc_of_shr_record mrs'))
    as [H2 _].
  pose proof (@shr_fexp_nonneg
                (round_nearest_even (shr_m mrs') (loc_of_shr_record mrs'))
                e' loc_Exact ltac:(lia)) as H3.
  destruct (shr_fexp prec emax _ e' loc_Exact) as [mrs'' e''].
  cbn [fst] in H3.
  destruct (shr_m mrs'') as [|m|m]; [exact I| |lia].
  destruct (e'' <=? emax - prec); exact I.
Qed.

(** Rounding a number that is at least 1 gives a number that is at least 1,
    or infinity. *)
Lemma binary_round_aux_above_one (mx ex : Z) (lx : location) :
  above_one mx ex ->
  match binary_round_aux prec emax false mx ex lx with
  | S754_finite false m e => above_one (Zpos m) e
  | S754_infinity false => True
  | _ => False
  end.
Proof.
  intros Hm. unfold binary_round_aux.
  pose proof (@shr_fexp_above_one mx ex lx Hm) as H1.
  destruct (shr_fexp prec emax mx ex lx) as [mrs' e']. cbn [fst snd] in H1.
  pose proof (round_nearest_even_bounds (shr_m mrs') (loc_of_shr_record mrs'))
    as [H2 _].
  pose proof (@shr_fexp_above_one _ _ loc_Exact
                (@above_one_mono _ _ _ H1 H2)) as H3.
  destruct (shr_fexp prec emax _ e' loc_Exact) as [mrs'' e''].
  cbn [fst snd] in H3.
  destruct (shr_m mrs'') as [|m|m]; try (destruct H3; lia).
  destruct (e'' <=? emax - prec); [exact H3|exact I].
Qed.

Lemma iter_xO (d m : positive) :
  Zpos (Pos.iter xO m d) = Zpos m * 2 ^ Zpos d.
Proof.
  induction d as [|d IH] using Pos.peano_ind.
  - cbn [Pos.iter]. change (2 ^ 1) with 2. lia.
  - rewrite Pos.iter_succ, Pos2Z.inj_succ, Z.pow_succ_r by lia.
    change (Z.pos (Pos.iter xO m d)~0) with (2 * Z.pos (Pos.iter xO m d)).
    rewrite IH. ring.
Qed.

(** Aligning a mantissa to a lower exponent keeps the number. *)
Lemma shl_align_spec (mx : positive) (ex ez : Z) :
  Zpos (fst (shl_align mx ex ez)) =
    Zpos mx * 2 ^ (ex - snd (shl_align mx ex ez)) /\
  snd (shl_align mx ex ez) <= ex /\
  (ez <= ex -> snd (shl_align mx ex ez) = ez).
Proof.
  unfold shl_align. destruct (ez - ex) as [|d|d] eqn:E; cbn [fst snd].
  - rewrite Z.sub_diag. change (2 ^ 0) with 1. lia.
  - rewrite Z.sub_diag. change (2 ^ 0) with 1. lia.
  - rewrite iter_xO. replace (ex - ez) with (Zpos d) by lia. lia.
Qed.

Lemma binary_round_nonneg (mx : positive) (ex : Z) :
  nonneg (binary_round prec emax false mx ex).
Proof.
  unfold binary_round. destruct (shl_align mx ex _) as [mz ez].
  now apply binary_round_aux_nonneg.
Qed.

Lemma binary_round_above_one (mx : positive) (ex : Z) :
  above_one (Zpos mx) ex ->
  match binary_round prec emax false mx ex with
  | S754_finite false m e => above_one (Zpos m) e
  | S754_infinity false => True
  | _ => False
  end.
Proof.
  intros [_ Hm]. unfold binary_round.
  destruct (shl_align_spec mx ex
              (fexp prec emax (Zpos (digits2_pos mx) + ex)))
    as (Hmz & Hez & _).
  destruct (shl_align mx ex _) as [mz ez]. cbn [fst snd] in Hmz, Hez.
  apply binary_round_aux_above_one. split; [lia|]. rewrite Hmz.
  assert (Hk : 0 < 2 ^ (ex - ez)) by (apply Z.pow_pos_nonneg; lia).
  destruct (Z.le_gt_cases 0 (- ex)) as [Hle|Hgt].
  - replace (- ez) with (- ex + (ex - ez)) by lia.
    rewrite Z.pow_add_r by lia. nia.
  - destruct (Z.le_gt_cases 0 (- ez)) as [Hle'|Hgt'].
    + apply Z.le_trans with (2 ^ (ex - ez)).
      * apply Z.pow_le_mono_r; lia.
      * nia.
    + rewrite Z.pow_neg_r by lia. nia.
Qed.

Lemma Prim2SF_one : Prim2SF 1%float = SFone64.
Proof. vm_compute. reflexivity. Qed.

(** Adding 1 to a nonnegative number gives at least 1, or infinity. *)
Lemma SFadd_one (x : spec_float) :
  nonneg x ->
  match SFadd prec emax x SFone64 with
  | S754_finite false m e => above_one (Zpos m) e
  | S754_infinity false => True
  | _ => False
  end.
Proof.
  destruct x as [s|[|]| |[|] mx ex]; cbn [nonneg]; try contradiction;
    intros _.
  - cbn. unfold above_one. split; [lia|]. vm_compute. discriminate.
  - exact I.
  - unfold SFadd, SFone64. cbv zeta. cbn [cond_Zopp].
    set (ez := Z.min ex (-52)).
    destruct (shl_align_spec 4503599627370496 (-52) ez) as (Hb & _ & Hez).
    rewrite Hez in Hb by lia.
    set (a := fst (shl_align mx ex ez)) in *.
    set (b := fst (shl_align 4503599627370496 (-52) ez)) in *.
    change (Z.pos a + Z.pos b) with (Z.pos (a + b)).
    cbn [binary_normalize]. apply binary_round_above_one.
    split; [lia|]. rewrite Pos2Z.inj_add, Hb.
    change 4503599627370496 with (2 ^ 52).
    rewrite <- Z.pow_add_r by lia.
    replace (52 + (-52 - ez)) with (- ez) by lia. lia.
Qed.

(** Subtracting a number between 0 and 1 from 1 gives a nonnegative
    number. *)
Lemma SFsub_one (x : spec_float) :
  valid_binary x = true ->
  nonneg x ->
  SFleb x SFone64 = true ->
  nonneg (SFsub prec emax SFone64 x).
Proof.
  destruct x as [s|[|]| |[|] mx ex]; cbn [nonneg]; try contradiction;
    intros Hv _ Hle.
  - exact I.
  - discriminate.
  - cbn [valid_binary] in Hv.
    destruct (@bounded_facts mx ex Hv) as (Hmx & _ & _).
    assert (Hex : ex <= -52 /\ (ex = -52 -> Zpos mx <= 2 ^ 52)).
    { assert (Hc : SFcompare (S754_finite false mx ex) SFone64 =
                   Some match (ex ?= -52)%Z with
                        | Lt => Lt
                        | Gt => Gt
                        | Eq => Pos.compare mx 4503599627370496
                        end)
        by (unfold SFcompare, SFone64, Pos.compare; reflexivity).
      unfold SFleb in Hle. rewrite Hc in Hle.
      destruct (Z.compare_spec ex (-52)) as [He|He|He].
      - split; [lia|]. intros _.
        destruct (Pos.compare_spec mx 4503599627370496) as [Hm|Hm|Hm].
        + rewrite Hm. vm_compute. discriminate.
        + apply Pos2Z.pos_lt_pos in Hm.
          change (2 ^ 52) with 4503599627370496. lia.
        + discriminate.
      - lia.
      - discriminate. }
    unfold SFsub, SFone64. cbv zeta. cbn [cond_Zopp].
    destruct Hex as [Hex Hmant].
    replace (Z.min (-52) ex) with ex by lia.
    destruct (shl_align_spec 4503599627370496 (-52) ex) as (Ha & _ & Hez).
    rewrite Hez in Ha by lia.
    destruct (shl_align_spec mx ex ex) as (Hb & _ & Hez').
    rewrite Hez' in Hb by lia. rewrite Z.sub_diag in Hb.
    change (2 ^ 0) with 1 in Hb.
    set (a := fst (shl_align 4503599627370496 (-52) ex)) in *.
    set (b := fst (shl_align mx ex ex)) in *.
    assert (Hab : Zpos b <= Zpos a).
    { rewrite Ha, Hb. change 4503599627370496 with (2 ^ 52).
      destruct (Z.eq_dec ex (-52)) as [->|Hne].
      - change (2 ^ (-52 - -52)) with 1. specialize (Hmant eq_refl). lia.
      - assert (2 ^ 1 <= 2 ^ (-52 - ex)) by (apply Z.pow_le_mono_r; lia).
        change (2 ^ 1) with 2 in H.
        change (2 ^ 53) with (2 ^ 52 * 2) in Hmx.
        assert (HP : 0 < 2 ^ 52) by reflexivity.
        set (P := 2 ^ 52) in *. set (K := 2 ^ (-52 - ex)) in *.
        clearbody P K. nia. }
    destruct (Z.pos a - Z.pos b) as [|d|d] eqn:Ed; cbn [binary_normalize].
    + exact I.
    + apply binary_round_nonneg.
    + lia.
Qed.

(** The product of a nonnegative number and a positive finite one is
    nonnegative. *)
Lemma SFmul_nonneg (x : spec_float) (my : positive) (ey : Z) :
  nonneg x -> nonneg (SFmul prec emax x (S754_finite false my ey)).
Proof.
  destruct x as [s|[|]| |[|] mx ex]; cbn [nonneg]; try contradiction;
    intros _; cbn [SFmul xorb].
  - exact I.
  - exact I.
  - apply binary_round_aux_nonneg. lia.
Qed.

End Rounding.

Lemma above_one_value (m : positive) (e : Z) :
  above_one (Zpos m) e -> 1 <= inject_Z (Zpos m) * 2 ^ e.
Proof.
  intros [_ Hm]. destruct (Z.le_gt_cases e 0) as [Hle|Hgt].
  - pose proof (@two_power_split e 0 Hle) as H.
    change (2 ^ 0) with 1 in H. rewrite Z.sub_0_l in H. rewrite H.
    apply Qmult_le_compat_r; [|apply Qlt_le_weak, two_power_pos].
    now rewrite <- Zle_Qle.
  - pose proof (@two_power_split 0 e ltac:(lia)) as H.
    change (2 ^ 0) with 1 in H. rewrite Z.sub_0_r in H.
    rewrite H, Qmult_1_r, <- inject_Z_mult. change 1 with (inject_Z 1).
    rewrite <- Zle_Qle.
    assert (0 < 2 ^ e)%Z by (apply Z.pow_pos_nonneg; lia). nia.
Qed.

(** In binary64, adding 1 to a nonnegative number gives at least 1. *)
Lemma binary64_add_one (p : float) :
  nonneg (Prim2SF p) ->
  PrimFloat.leb 1 (PrimFloat.add p 1) = true /\
  PrimFloat.ltb 0 (PrimFloat.add p 1) = true.
Proof.
  intros Hp. pose proof (Prim2SF_valid (PrimFloat.add p 1)) as Hv.
  rewrite leb_spec, ltb_spec, Prim2SF_zero.
  rewrite add_spec, Prim2SF_one in *.
  pose proof (@SFadd_one _ Hp) as H. unfold SF64add in *.
  destruct (SFadd prec emax (Prim2SF p) SFone64) as [s|[|]| |[|] m e];
    try contradiction.
  - split; reflexivity.
  - split; [|reflexivity].
    pose proof (@SFcompare_value SFone64 (S754_finite false m e) _ _
                  eq_refl Hv eq_refl eq_refl) as Hc.
    pose proof (@above_one_value _ _ H) as Hge.
    unfold SFleb.
    destruct (SFcompare SFone64 (S754_finite false m e)) as [[| |]|];
      try reflexivity; [|contradiction].
    exfalso. cbn [cond_Zopp] in Hc.
    assert (Hone : inject_Z 4503599627370496 * 2 ^ (-52) == 1)
      by reflexivity.
    rewrite Hone in Hc. lra.
Qed.

Lemma binary64_unit_class (b : float) :
  PrimFloat.leb 0 b = true -> PrimFloat.leb b 1 = true ->
  nonneg (Prim2SF b) /\ SFleb (Prim2SF b) SFone64 = true.
Proof.
  rewrite !leb_spec, Prim2SF_zero, Prim2SF_one. intros H0 H1.
  split; [|exact H1]. clear H1.
  destruct (Prim2SF b) as [s|[|]| |[|] m e]; try exact I; discriminate.
Qed.

Lemma binary64_positive_class (s : float) :
  PrimFloat.leb 1 s = true -> PrimFloat.leb s 100 = true ->
  exists m e, Prim2SF s = S754_finite false m e.
Proof.
  rewrite !leb_spec, Prim2SF_one.
  replace (Prim2SF 100) with (S754_finite false 7036874417766400 (-46))
    by (vm_compute; reflexivity).
  intros H1 H100.
  destruct (Prim2SF s) as [?|[|]| |[|] m e]; try discriminate; eauto.
Qed.

(** From a belief clamped into [0,1] and a strength clamped into [1,100],
    both shape parameters come out at least 1, whatever is rounded on the
    way. *)
Lemma binary64_shape_bounds (b s : float) :
  PrimFloat.leb 0 b = true -> PrimFloat.leb b 1 = true ->
  PrimFloat.leb 1 s = true -> PrimFloat.leb s 100 = true ->
  (PrimFloat.leb 1 (PrimFloat.add (PrimFloat.mul b s) 1) = true /\
   PrimFloat.ltb 0 (PrimFloat.add (PrimFloat.mul b s) 1) = true) /\
  (PrimFloat.leb 1
     (PrimFloat.add (PrimFloat.mul (PrimFloat.sub 1 b) s) 1) = true /\
   PrimFloat.ltb 0
     (PrimFloat.add (PrimFloat.mul (PrimFloat.sub 1 b) s) 1) = true).
Proof.
  intros Hb0 Hb1 Hs1 Hs100.
  destruct (@binary64_unit_class _ Hb0 Hb1) as [Hb Hle].
  destruct (@binary64_positive_class _ Hs1 Hs100) as (ms & es & Es).
  split; apply binary64_add_one; rewrite mul_spec, Es; unfold SF64mul;
    apply SFmul_nonneg; [exact Hb|].
  rewrite sub_spec, Prim2SF_one. unfold SF64sub.
  apply SFsub_one; [apply Prim2SF_valid|exact Hb|exact Hle].
Qed.

(** * The belief shape in binary64 *)

(** ** Clamping a number *)

Lemma SFeqb_refl (x : spec_float) : x <> S754_nan -> SFeqb x x = true.
Proof.
  destruct x as [s|s| |s m e]; intros H; try reflexivity.
  - now destruct s.
  - contradiction.
  - unfold SFeqb, SFcompare.
    rewrite Z.compare_refl, Pos.compare_cont_refl. now destruct s.
Qed.

Lemma binary64_leb_numbers (a b : float) :
  PrimFloat.leb a b = true ->
  PrimFloat.eqb a a = true /\ PrimFloat.eqb b b = true.
Proof.
  rewrite leb_spec, !eqb_spec.
  destruct (Prim2SF a) eqn:Ea; destruct (Prim2SF b) eqn:Eb;
    try discriminate; intros _; split; apply SFeqb_refl; discriminate.
Qed.

Lemma binary64_leb_refl (a : float) :
  PrimFloat.eqb a a = true -> PrimFloat.leb a a = true.
Proof.
  rewrite leb_spec, eqb_spec. unfold SFeqb, SFleb.
  now destruct (SFcompare (Prim2SF a) (Prim2SF a)) as [[| |]|].
Qed.

(** A number that is not NaN is clamped into the bounds. *)
Lemma binary64_clip_range (x lo hi : float) :
  PrimFloat.leb lo hi = true ->
  is_nan x = false ->
  PrimFloat.leb lo (np_clip x lo hi) = true /\
  PrimFloat.leb (np_clip x lo hi) hi = true.
Proof.
  intros Hlohi Hx.
  destruct (@binary64_leb_numbers _ _ Hlohi) as [Hlo Hhi].
  pose proof (@binary64_leb_refl _ Hlo) as Rlo.
  pose proof (@binary64_leb_refl _ Hhi) as Rhi.
  unfold np_clip, np_maximum. rewrite Hx. b64_ops.
  apply negb_false_iff in Hx.
  destruct (PrimFloat.leb lo x) eqn:E1; unfold np_minimum; b64_ops.
  - rewrite Hx. cbn [negb].
    destruct (PrimFloat.leb x hi) eqn:E2; auto.
  - rewrite Hlo, Hlohi. cbn [negb]. auto.
Qed.

(** ** NaN goes through the arithmetic *)

Lemma binary64_nan (x : float) :
  is_nan x = true -> Prim2SF x = S754_nan.
Proof.
  b64_ops. intros H. apply negb_true_iff in H. rewrite eqb_spec in H.
  destruct (Prim2SF x) eqn:E; try reflexivity;
    rewrite SFeqb_refl in H; discriminate.
Qed.

Lemma binary64_is_nan (x : float) :
  Prim2SF x = S754_nan -> is_nan x = true.
Proof. b64_ops. intros H. now rewrite eqb_spec, H. Qed.

Lemma binary64_nan_arithmetic (x y : float) :
  Prim2SF x = S754_nan \/ Prim2SF y = S754_nan ->
  Prim2SF (PrimFloat.mul x y) = S754_nan /\
  Prim2SF (PrimFloat.add x y) = S754_nan /\
  Prim2SF (PrimFloat.sub x y) = S754_nan.
Proof.
  rewrite mul_spec, add_spec, sub_spec.
  intros [H|H]; rewrite H.
  - auto.
  - destruct (Prim2SF x); auto.
Qed.

Lemma np_clip_nan (x lo hi : float) :
  is_nan x = true -> np_clip x lo hi = x.
Proof.
  intros H. unfold np_clip, np_maximum. rewrite H.
  unfold np_minimum. now rewrite H.
Qed.

(** ** The shape parameters *)

(** C6: for every belief and strength other than NaN, in range or not,
    infinities included, [parameters] returns alpha = b x s + 1 and
    beta = (1 - b) x s + 1 with b the belief clamped into [0,1] and s the
    strength clamped into [1,100]; it has no operation that could raise.
    Both values are at least 1, hence greater than zero: in binary64,
    whatever is rounded on the way, and over exact arithmetic, where they
    are the claimed formulas of the clamped inputs.  A NaN belief or
    strength is not clamped and makes both values NaN. *)
Theorem shape_parameters_numbers :
  (forall belief strength : float,
      is_nan belief = false ->
      is_nan strength = false ->
      let self := {| BetaModel.belief_probability := belief;
                     BetaModel.confidence_strength := strength |} in
      let b := np_clip belief 0%float 1%float in
      let s := np_clip strength 1%float 100%float in
      let alpha := fst (BetaModel.parameters self) in
      let beta := snd (BetaModel.parameters self) in
      (alpha = PrimFloat.add (PrimFloat.mul b s) 1 /\
       beta = PrimFloat.add (PrimFloat.mul (PrimFloat.sub 1 b) s) 1) /\
      (PrimFloat.leb 0 b = true /\ PrimFloat.leb b 1 = true) /\
      (PrimFloat.leb 1 s = true /\ PrimFloat.leb s 100 = true) /\
      (PrimFloat.leb 1 alpha = true /\ PrimFloat.leb 1 beta = true) /\
      (PrimFloat.ltb 0 alpha = true /\ PrimFloat.ltb 0 beta = true)) /\
  (forall belief strength : float,
      is_nan belief = true \/ is_nan strength = true ->
      let self := {| BetaModel.belief_probability := belief;
                     BetaModel.confidence_strength := strength |} in
      is_nan (fst (BetaModel.parameters self)) = true /\
      is_nan (snd (BetaModel.parameters self)) = true) /\
  (forall belief strength : Q,
      let self := {| BetaModel.belief_probability := belief;
                     BetaModel.confidence_strength := strength |} in
      let alpha := fst (BetaModel.parameters self) in
      let beta := snd (BetaModel.parameters self) in
      alpha == clamp belief 0 1 * clamp strength 1 100 + 1 /\
      beta == (1 - clamp belief 0 1) * clamp strength 1 100 + 1 /\
      (1 <= alpha /\ 1 <= beta) /\
      (0 < alpha /\ 0 < beta)).
Proof.
  split; [|split; [|exact (proj1 shape_exact)]].
  - intros belief strength Hb Hs. cbv zeta.
    destruct (@binary64_clip_range belief 0%float 1%float eq_refl Hb)
      as [Hb0 Hb1].
    destruct (@binary64_clip_range strength 1%float 100%float eq_refl Hs)
      as [Hs1 Hs100].
    destruct (@binary64_shape_bounds _ _ Hb0 Hb1 Hs1 Hs100)
      as [[Ha Ha'] [Hc Hc']].
    split; [split; reflexivity|]. split; [auto|]. split; [auto|].
    unfold BetaModel.parameters.
    cbn [fst snd BetaModel.belief_probability BetaModel.confidence_strength].
    b64_ops. auto.
  - intros belief strength H. cbv zeta. unfold BetaModel.parameters.
    cbn [fst snd BetaModel.belief_probability BetaModel.confidence_strength].
    b64_ops.
    set (b := np_clip belief 0%float 1%float).
    set (s := np_clip strength 1%float 100%float).
    assert (Hbs : Prim2SF b = S754_nan \/ Prim2SF s = S754_nan).
    { destruct H as [H|H]; [left|right]; subst b s;
        rewrite (@np_clip_nan _ _ _ H); now apply binary64_nan. }
    assert (Hcs : Prim2SF (PrimFloat.sub 1%float b) = S754_nan \/
                  Prim2SF s = S754_nan).
    { destruct Hbs as [Hb|Hs]; [left|now right].
      apply (@binary64_nan_arithmetic 1%float b). now right. }
    split; apply binary64_is_nan.
    + apply (@binary64_nan_arithmetic (PrimFloat.mul b s) 1%float). left.
      now apply (@binary64_nan_arithmetic b s).
    + apply (@binary64_nan_arithmetic
               (PrimFloat.mul (PrimFloat.sub 1 b) s) 1%float).
      left. now apply (@binary64_nan_arithmetic (PrimFloat.sub 1 b) s).
Qed.

Lemma shape_parameters_numbers_witness :
  PrimFloat.leb 1 (fst (BetaModel.parameters
                          {| BetaModel.belief_probability := 1.5%float;
                             BetaModel.confidence_strength := 250%float |}))
    = true /\
  PrimFloat.leb 1 (snd (BetaModel.parameters
                          {| BetaModel.belief_probability := 1.5%float;
                             BetaModel.confidence_strength := 250%float |}))
    = true.
Proof.
  apply (proj1 shape_parameters_numbers 1.5%float 250%float);
    vm_compute; reflexivity.
Defined.

(** C6, as stated for every pair of inputs, fails in binary64: with a NaN
    belief both parameters are NaN, and neither compares as at least 1 or
    as greater than zero. *)
Lemma shape_parameters_nan :
  BetaModel.parameters nan_belief = (nan, nan) /\
  is_nan (fst (BetaModel.parameters nan_belief)) = true /\
  PrimFloat.leb 1 (fst (BetaModel.parameters nan_belief)) = false /\
  PrimFloat.leb 1 (snd (BetaModel.parameters nan_belief)) = false /\
  PrimFloat.ltb 0 (fst (BetaModel.parameters nan_belief)) = false /\
  PrimFloat.ltb 0 (snd (BetaModel.parameters nan_belief)) = false.
Proof. vm_compute. repeat split. Qed.

(** * The density curve *)

(** ** The grid *)

Lemma linspace_length (start stop : Q) (num : nat) :
  length (linspace start stop num) = num.
Proof.
  destruct num as [|[|d]]; [reflexivity|reflexivity|].
  unfold linspace. rewrite length_app, length_map, length_seq. cbn. lia.
Qed.

Lemma linspace_inner (start stop : Q) (d i : nat) :
  (i < S d)%nat ->
  nth_error (linspace start stop (S (S d))) i =
    Some (start + inject_Z (Z.of_nat i) *
                  ((stop - start) / inject_Z (Z.of_nat (S d)))).
Proof.
  intros Hi. unfold linspace.
  rewrite nth_error_app1 by (now rewrite length_map, length_seq).
  rewrite nth_error_map, nth_error_seq.
  apply Nat.ltb_lt in Hi. now rewrite Hi.
Qed.

Lemma linspace_last (start stop : Q) (d : nat) :
  nth_error (linspace start stop (S (S d))) (S d) = Some stop.
Proof.
  unfold linspace.
  rewrite nth_error_app2 by (rewrite length_map, length_seq; lia).
  rewrite length_map, length_seq, Nat.sub_diag. reflexivity.
Qed.

Lemma index_fraction (d i : nat) :
  (i <= S d)%nat ->
  0 <= inject_Z (Z.of_nat i) / inject_Z (Z.of_nat (S d)) /\
  inject_Z (Z.of_nat i) / inject_Z (Z.of_nat (S d)) <= 1.
Proof.
  intros Hi.
  assert (Hn : 0 < inject_Z (Z.of_nat (S d))).
  { change 0 with (inject_Z 0). rewrite <- Zlt_Qlt. lia. }
  assert (H0 : 0 <= inject_Z (Z.of_nat i)).
  { change 0 with (inject_Z 0). rewrite <- Zle_Qle. lia. }
  assert (H1 : inject_Z (Z.of_nat i) <= inject_Z (Z.of_nat (S d))).
  { rewrite <- Zle_Qle. lia. }
  split.
  - apply Qle_shift_div_l; [assumption|lra].
  - apply Qle_shift_div_r; [assumption|lra].
Qed.

(** Sample [i] of the grid over [0,1] is i / (points - 1). *)
Lemma linspace_unit (d i : nat) :
  (i <= S d)%nat ->
  exists x,
    nth_error (linspace 0 1 (S (S d))) i = Some x /\
    x == inject_Z (Z.of_nat i) / inject_Z (Z.of_nat (S d)).
Proof.
  intros Hi.
  assert (Hn : 0 < inject_Z (Z.of_nat (S d))).
  { change 0 with (inject_Z 0). rewrite <- Zlt_Qlt. lia. }
  destruct (Nat.eq_dec i (S d)) as [->|Hne].
  - exists 1. split; [apply linspace_last|]. field. lra.
  - eexists. split; [apply linspace_inner; lia|]. field. lra.
Qed.

(** ** The curve *)

(** C8: for every point count of at least 2, [pdf] returns a grid of
    exactly that many values, value i being i / (points - 1): evenly
    spaced by 1 / (points - 1) over [0,1], the first 0 and the last 1; and
    as many densities, density i being the Beta density
    x^(alpha-1) (1-x)^(beta-1) / B(alpha, beta) at value i of the grid, for
    the alpha and beta that [parameters] returns.  No evaluation can
    fail, the end points included: the two exponents are at least 0 and
    the divisor B(alpha, beta) is positive, the Beta function being
    positive on positive arguments. *)
Theorem density_curve_samples
        (power beta_function : Q -> Q -> Q)
        (belief strength : Q) (points : nat) :
  (forall a b, 0 < a -> 0 < b -> 0 < beta_function a b) ->
  (2 <= points)%nat ->
  let self := {| BetaModel.belief_probability := belief;
                 BetaModel.confidence_strength := strength |} in
  let alpha := fst (BetaModel.parameters self) in
  let beta := snd (BetaModel.parameters self) in
  let xs := fst (density_curve power beta_function self points) in
  let ys := snd (density_curve power beta_function self points) in
  (length xs = points /\ length ys = points) /\
  (forall i, (i < points)%nat ->
     exists x,
       nth_error xs i = Some x /\
       x == inject_Z (Z.of_nat i) / inject_Z (Z.of_nat (points - 1)) /\
       (0 <= x /\ x <= 1) /\
       nth_error ys i = Some (beta_density power beta_function x alpha beta)) /\
  (forall i x x',
     nth_error xs i = Some x -> nth_error xs (S i) = Some x' ->
     x' - x == 1 / inject_Z (Z.of_nat (points - 1))) /\
  ((exists x, nth_error xs 0 = Some x /\ x == 0) /\
   nth_error xs (points - 1) = Some 1) /\
  (0 <= alpha - 1 /\ 0 <= beta - 1 /\ 0 < beta_function alpha beta).
Proof.
  intros Hbeta Hpoints self alpha beta xs ys.
  destruct points as [|[|d]]; [lia|lia|].
  replace (S (S d) - 1)%nat with (S d) by lia.
  assert (Hxs : xs = linspace 0 1 (S (S d))).
  { subst xs. unfold density_curve, BetaModel.pdf.
    now destruct (BetaModel.parameters self). }
  assert (Hys : ys = beta_dist_pdf power beta_function xs alpha beta).
  { subst xs ys alpha beta. unfold density_curve, BetaModel.pdf.
    now destruct (BetaModel.parameters self). }
  assert (Hn : 0 < inject_Z (Z.of_nat (S d))).
  { change 0 with (inject_Z 0). rewrite <- Zlt_Qlt. lia. }
  clearbody xs ys. subst xs ys.
  assert (Hsample : forall i, (i <= S d)%nat ->
            exists x, nth_error (linspace 0 1 (S (S d))) i = Some x /\
                      x == inject_Z (Z.of_nat i) / inject_Z (Z.of_nat (S d)))
    by (intros i Hi; now apply linspace_unit).
  split; [|split; [|split; [|split]]].
  - unfold beta_dist_pdf. rewrite length_map, linspace_length. auto.
  - intros i Hi. destruct (Hsample i) as (x & Ex & Hx); [lia|].
    exists x. split; [exact Ex|]. split; [exact Hx|]. split.
    + rewrite Hx. apply index_fraction. lia.
    + unfold beta_dist_pdf.
      exact (map_nth_error
               (fun x => beta_density power beta_function x alpha beta)
               i _ Ex).
  - intros i x x' Ex Ex'.
    assert (Hi : (S i < S (S d))%nat).
    { rewrite <- (linspace_length 0 1 (S (S d))).
      apply nth_error_Some. congruence. }
    destruct (Hsample i) as (y & Ey & Hy); [lia|].
    destruct (Hsample (S i)) as (y' & Ey' & Hy'); [lia|].
    rewrite Ex in Ey. injection Ey as <-.
    rewrite Ex' in Ey'. injection Ey' as <-.
    rewrite Hy', Hy. rewrite Nat2Z.inj_succ. unfold Z.succ.
    rewrite inject_Z_plus. field. lra.
  - split; [|apply linspace_last].
    destruct (Hsample 0%nat) as (x & Ex & Hx); [lia|].
    exists x. split; [exact Ex|]. rewrite Hx. field. lra.
  - destruct (proj1 shape_exact belief strength)
      as (_ & _ & [Ha Hb] & [Ha' Hb']).
    fold self in Ha, Hb, Ha', Hb'. fold alpha in Ha, Ha'.
    fold beta in Hb, Hb'.
    split; [lra|]. split; [lra|]. now apply Hbeta.
Qed.

Lemma density_curve_samples_witness :
  length (fst (density_curve
                 (fun _ _ => 1) (fun _ _ => 1)
                 {| BetaModel.belief_probability := 1 # 2;
                    BetaModel.confidence_strength := 1 |} 3)) = 3%nat /\
  length (snd (density_curve
                 (fun _ _ => 1) (fun _ _ => 1)
                 {| BetaModel.belief_probability := 1 # 2;
                    BetaModel.confidence_strength := 1 |} 3)) = 3%nat.
Proof.
  apply (@density_curve_samples (fun _ _ => 1) (fun _ _ => 1) (1 # 2) 1 3).
  - intros a b _ _. reflexivity.
  - lia.
Defined.
